(** * ReactiveContext: an observable state container with event dispatch

    A shallow embedding of the [ReactiveContext] class (ES module, strict
    mode) and of the part of the JavaScript object model it runs on.

    - Raw objects and arrays live in a heap and are referred to by address;
      proxies are values carrying their identity, namespace and target.
    - The private members [#listeners], [#proxy_cache] and [#fields] are
      fields of one explicit state record, together with a trace of the
      observable effects ([#emit] calls, listener invocations,
      [console.warn], [console.error]).
    - Listener arrays are stored by identity, because [#emit] iterates the
      very array object that [on], [off] and [once] mutate in place.

    Boundaries of the object model (not of the class): own data properties
    only (no inherited members, accessors or frozen objects), integer
    numbers, dense arrays; event names are not names of members of
    [Object.prototype], which a lookup in the plain object [#listeners]
    would find.  Operations whose result would depend on a coercion or on
    an engine algorithm that is not modelled report [Stuck] instead of
    guessing.  Listener bodies use the subscription interface and throw;
    they do not read or write reactive data themselves. *)

From Stdlib Require Import ZArith String Ascii List Bool Lia.
From stdpp Require Import base option list strings gmap.

Open Scope string_scope.
Open Scope nat_scope.
Open Scope list_scope.
Open Scope stdpp_scope.

(** ** Values *)

(** A property key as a proxy trap receives it: a string or a symbol. *)
Inductive Key :=
  | KStr (s : string)
  | KSym (n : nat).

(** References to objects: raw heap objects, and proxies created by
    [#createReactive].  A proxy's namespace and target are fixed when it
    is built; [px_id] is its identity. *)
Inductive ObjRef :=
  | Raw (a : nat)
  | Prox (px_id : nat) (namespace : string) (target : ObjRef).

Inductive Value :=
  | VUndef
  | VNull
  | VBool (b : bool)
  | VNum (z : Z)
  | VStr (s : string)
  | VFun (f : nat)                                  (* some other function *)
  | VMut (namespace : string) (obj : ObjRef) (prop : string)
      (* the arrow function returned by the get trap for an array mutator *)
  | VObj (r : ObjRef).

#[global] Instance Key_eq_dec : EqDecision Key.
Proof. solve_decision. Defined.
#[global] Instance ObjRef_eq_dec : EqDecision ObjRef.
Proof. solve_decision. Defined.
#[global] Instance Value_eq_dec : EqDecision Value.
Proof. solve_decision. Defined.

(** [typeof v] *)
Definition typeof (v : Value) : string :=
  match v with
  | VUndef => "undefined"
  | VNull => "object"
  | VBool _ => "boolean"
  | VNum _ => "number"
  | VStr _ => "string"
  | VFun _ | VMut _ _ _ => "function"
  | VObj _ => "object"
  end.

(** [v !== null && typeof v === 'object'] *)
Definition is_object (v : Value) : bool :=
  negb (bool_decide (v = VNull)) && bool_decide (typeof v = "object").

Inductive Exn :=
  | TypeError (msg : string)
  | RangeError (msg : string)
  | UserError (tag : nat).              (* a value thrown by listener code *)

#[global] Instance Exn_eq_dec : EqDecision Exn.
Proof. solve_decision. Defined.

(** Result of an engine primitive. *)
Inductive Res (A : Type) :=
  | Ok (a : A)
  | Throw (e : Exn)
  | Stuck.
Arguments Ok {A} a.
Arguments Throw {A} e.
Arguments Stuck {A}.

(** Template-literal interpolation [`${prop}`]: [ToString] of a symbol
    throws. *)
Definition key_to_string (k : Key) : Res string :=
  match k with
  | KStr s => Ok s
  | KSym _ => Throw (TypeError "Cannot convert a Symbol value to a string")
  end.

(** ** Raw objects *)

Inductive RawObj :=
  | OPlain (props : list (Key * Value))
  | OArray (elems : list Value) (props : list (Key * Value)).

Fixpoint assoc_get (k : Key) (l : list (Key * Value)) : option Value :=
  match l with
  | [] => None
  | (k', v) :: r => if decide (k' = k) then Some v else assoc_get k r
  end.

Fixpoint assoc_set (k : Key) (v : Value) (l : list (Key * Value))
  : list (Key * Value) :=
  match l with
  | [] => [(k, v)]
  | (k', v') :: r =>
      if decide (k' = k) then (k, v) :: r else (k', v') :: assoc_set k v r
  end.

Fixpoint assoc_del (k : Key) (l : list (Key * Value)) : list (Key * Value) :=
  match l with
  | [] => []
  | (k', v') :: r =>
      if decide (k' = k) then r else (k', v') :: assoc_del k r
  end.

Definition digit_of (c : ascii) : option N :=
  let n := N_of_ascii c in
  if ((48 <=? n) && (n <=? 57))%N then Some (n - 48)%N else None.

Fixpoint parse_digits (s : string) (acc : N) : option N :=
  match s with
  | EmptyString => Some acc
  | String c r =>
      match digit_of c with
      | Some d => parse_digits r (10 * acc + d)%N
      | None => None
      end
  end.

(** A canonical array index: decimal, no leading zero, below 2^32 - 1. *)
Definition array_index (s : string) : option nat :=
  match s with
  | EmptyString => None
  | String c r =>
      if bool_decide (c = "0"%char) && negb (bool_decide (r = EmptyString))
      then None
      else match parse_digits s 0 with
           | Some n => if (n <? 4294967295)%N then Some (N.to_nat n) else None
           | None => None
           end
  end.

Definition resize_elems (n : nat) (l : list Value) : list Value :=
  take n l ++ replicate (n - length l) VUndef.

(** [o[k]] on a raw object. *)
Definition raw_get (o : RawObj) (k : Key) : Value :=
  match o with
  | OPlain props => default VUndef (assoc_get k props)
  | OArray elems props =>
      match k with
      | KStr s =>
          if decide (s = "length") then VNum (Z.of_nat (length elems))
          else match array_index s with
               | Some i => default VUndef (elems !! i)
               | None => default VUndef (assoc_get k props)
               end
      | KSym _ => default VUndef (assoc_get k props)
      end
  end.

(** [o[k] = v] on a raw object. *)
Definition raw_set (o : RawObj) (k : Key) (v : Value) : Res RawObj :=
  match o with
  | OPlain props => Ok (OPlain (assoc_set k v props))
  | OArray elems props =>
      match k with
      | KStr s =>
          if decide (s = "length") then
            match v with
            | VNum z =>
                if ((0 <=? z) && (z <? 4294967296))%Z
                then Ok (OArray (resize_elems (Z.to_nat z) elems) props)
                else Throw (RangeError "Invalid array length")
            | _ => Stuck
            end
          else match array_index s with
               | Some i =>
                   Ok (OArray (<[i := v]> (resize_elems (Nat.max (S i) (length elems)) elems)) props)
               | None => Ok (OArray elems (assoc_set k v props))
               end
      | KSym _ => Ok (OArray elems (assoc_set k v props))
      end
  end.

(** [delete o[k]] on a raw object; the boolean is the operator's result. *)
Definition raw_delete (o : RawObj) (k : Key) : RawObj * bool :=
  match o with
  | OPlain props => (OPlain (assoc_del k props), true)
  | OArray elems props =>
      match k with
      | KStr s =>
          if decide (s = "length") then (o, false)
          else match array_index s with
               | Some i => (OArray (<[i := VUndef]> elems) props, true)
               | None => (OArray elems (assoc_del k props), true)
               end
      | KSym _ => (OArray elems (assoc_del k props), true)
      end
  end.

Definition raw_is_array (o : RawObj) : bool :=
  match o with OArray _ _ => true | OPlain _ => false end.

(** ** The built-in mutating array methods *)

(** What [Array.prototype[m].apply(obj, args)] hands back: the array
    itself, a plain value, or a freshly allocated array. *)
Inductive BuiltinResult :=
  | BThis
  | BVal (v : Value)
  | BNew (elems : list Value).

Definition res_bind {A B} (r : Res A) (f : A → Res B) : Res B :=
  match r with
  | Ok a => f a
  | Throw e => Throw e
  | Stuck => Stuck
  end.

(** [ToIntegerOrInfinity] on the values whose conversion is immediate. *)
Definition to_integer (v : Value) : Res Z :=
  match v with
  | VNum z => Ok z
  | VUndef | VNull => Ok 0%Z
  | VBool b => Ok (if b then 1 else 0)%Z
  | _ => Stuck
  end.

(** A relative index clamped into [0, len]. *)
Definition rel_index (len : nat) (z : Z) : nat :=
  if (z <? 0)%Z then Z.to_nat (Z.max (Z.of_nat len + z) 0)
  else Nat.min (Z.to_nat z) len.

(** An optional end index: [undefined] or absent means [len]. *)
Definition rel_end (len : nat) (v : option Value) : Res nat :=
  match v with
  | None | Some VUndef => Ok len
  | Some v => res_bind (to_integer v) (λ z, Ok (rel_index len z))
  end.

Fixpoint insert_sorted (s : string) (l : list string) : list string :=
  match l with
  | [] => [s]
  | x :: r => if String.ltb s x then s :: x :: r else x :: insert_sorted s r
  end.

(** Default [sort]: strings by code unit order, [undefined] last. *)
Fixpoint default_sort (l : list Value) (strs : list string) (undefs : nat)
  : Res (list Value) :=
  match l with
  | [] => Ok ((VStr <$> strs) ++ replicate undefs VUndef)
  | VStr s :: r => default_sort r (insert_sorted s strs) undefs
  | VUndef :: r => default_sort r strs (S undefs)
  | _ :: _ => Stuck
  end.

Definition ARRAY_MUTATORS : list string :=
  [ "push"; "pop"; "shift"; "unshift";
    "splice"; "sort"; "reverse"; "fill"; "copyWithin" ].

Definition array_proto (m : string) (elems args : list Value)
  : Res (list Value * BuiltinResult) :=
  let len := length elems in
  if decide (m = "push") then
    Ok (elems ++ args, BVal (VNum (Z.of_nat (len + length args))))
  else if decide (m = "pop") then
    Ok (take (len - 1) elems, BVal (default VUndef (last elems)))
  else if decide (m = "shift") then
    Ok (drop 1 elems, BVal (default VUndef (head elems)))
  else if decide (m = "unshift") then
    Ok (args ++ elems, BVal (VNum (Z.of_nat (len + length args))))
  else if decide (m = "reverse") then
    Ok (rev elems, BThis)
  else if decide (m = "splice") then
    match args with
    | [] => Ok (elems, BNew [])
    | start :: rest =>
        res_bind (to_integer start) (λ zs,
          let from := rel_index len zs in
          res_bind
            (match rest with
             | [] => Ok (len - from)
             | dc :: _ =>
                 res_bind (to_integer dc) (λ zd,
                   Ok (Nat.min (Z.to_nat (Z.max zd 0)) (len - from)))
             end) (λ count,
          Ok (take from elems ++ drop 1 rest ++ drop (from + count) elems,
              BNew (take count (drop from elems)))))
    end
  else if decide (m = "fill") then
    res_bind (to_integer (default VUndef (args !! 1))) (λ zs,
      let from := rel_index len zs in
      res_bind (rel_end len (args !! 2)) (λ upto,
        Ok (take from elems
              ++ replicate (Nat.min (upto - from) (len - from))
                   (default VUndef (args !! 0))
              ++ drop (Nat.max from upto) elems,
            BThis)))
  else if decide (m = "copyWithin") then
    res_bind (to_integer (default VUndef (args !! 0))) (λ zt,
      let to := rel_index len zt in
      res_bind (to_integer (default VUndef (args !! 1))) (λ zs,
        let from := rel_index len zs in
        res_bind (rel_end len (args !! 2)) (λ upto,
          let count := Nat.min (upto - from) (len - to) in
          Ok (take to elems ++ take count (drop from elems)
                ++ drop (to + count) elems,
              BThis))))
  else if decide (m = "sort") then
    match default VUndef (args !! 0) with
    | VUndef => res_bind (default_sort elems [] 0) (λ l, Ok (l, BThis))
    | VFun _ | VMut _ _ _ => Stuck
    | _ => Throw (TypeError
             "The comparison function must be either a function or undefined")
    end
  else Stuck.

(** ** Functions, payloads and observable effects *)

(** Function objects that can sit in a listener array.  The identifier is
    the identity that [indexOf] compares. *)
Inductive Fn :=
  | CUser (id : nat)                     (* a function written by the user *)
  | COnce (id : nat) (event : string) (callback : Fn)
      (* [wrapper] built by [once] *)
  | CUnsub (id : nat) (event : string) (callback : Fn).
      (* [() => this.off(event, callback)] returned by [on] *)

#[global] Instance Fn_eq_dec : EqDecision Fn.
Proof. solve_decision. Defined.

(** What the body of a user function may do with the context it is handed:
    use the subscription interface, and throw. *)
Inductive Action :=
  | AOn (event : string) (f : Fn)
  | AOff (event : string) (f : Fn)
  | AOnce (event : string) (f : Fn)
  | ARemoveAll (event : option string)
  | AThrow (tag : nat).

Inductive Payload :=
  | PRead (prop : string) (value : Value) (timestamp : Z)
  | PChange (prop : string) (old_value new_value : Value) (timestamp : Z)
  | PMutation (method : string) (args : list Value) (len : Value)
      (timestamp : Z).

Inductive Effect :=
  | EEmit (event : string) (data : Payload)     (* [#emit(event, data)] *)
  | ECall (f : Fn) (data : Payload)             (* [f(data, this)] *)
  | EWarn (msg : string)                        (* [console.warn] *)
  | EError (event : string) (error : Exn).      (* [console.error] *)

#[global] Instance Payload_eq_dec : EqDecision Payload.
Proof. solve_decision. Defined.
#[global] Instance Effect_eq_dec : EqDecision Effect.
Proof. solve_decision. Defined.

(** ** State of one host instance *)

(** Identity of an object, the key of the [WeakMap]. *)
Definition ident (r : ObjRef) : nat + nat :=
  match r with
  | Raw a => inl a
  | Prox id _ _ => inr id
  end.

Record State := mkState {
  heap : gmap nat RawObj;                  (* raw objects, by address *)
  next_addr : nat;
  proxy_cache : gmap (nat + nat) ObjRef;   (* [#proxy_cache] *)
  fields : gmap string Value;              (* [#fields] *)
  own : gset string;                       (* own property names of [this] *)
  listeners : gmap string nat;             (* [#listeners]: event to array *)
  arrays : gmap nat (list Fn);             (* listener arrays, by identity *)
  next_id : nat;                           (* next fresh identity *)
  ticks : nat;                             (* calls of [Date.now] so far *)
  trace : list Effect                      (* oldest first *)
}.

Definition initial : State :=
  mkState ∅ 0 ∅ ∅ ∅ ∅ ∅ 0 0 [].

Definition set_heap (h : gmap nat RawObj) (n : nat) (s : State) : State :=
  mkState h n (proxy_cache s) (fields s) (own s) (listeners s) (arrays s)
    (next_id s) (ticks s) (trace s).

Definition set_cache (c : gmap (nat + nat) ObjRef) (s : State) : State :=
  mkState (heap s) (next_addr s) c (fields s) (own s) (listeners s)
    (arrays s) (next_id s) (ticks s) (trace s).

Definition set_fields (f : gmap string Value) (s : State) : State :=
  mkState (heap s) (next_addr s) (proxy_cache s) f (own s) (listeners s)
    (arrays s) (next_id s) (ticks s) (trace s).

Definition set_own (o : gset string) (s : State) : State :=
  mkState (heap s) (next_addr s) (proxy_cache s) (fields s) o (listeners s)
    (arrays s) (next_id s) (ticks s) (trace s).

Definition set_listeners (l : gmap string nat) (s : State) : State :=
  mkState (heap s) (next_addr s) (proxy_cache s) (fields s) (own s) l
    (arrays s) (next_id s) (ticks s) (trace s).

Definition set_arrays (a : gmap nat (list Fn)) (s : State) : State :=
  mkState (heap s) (next_addr s) (proxy_cache s) (fields s) (own s)
    (listeners s) a (next_id s) (ticks s) (trace s).

Definition set_next_id (n : nat) (s : State) : State :=
  mkState (heap s) (next_addr s) (proxy_cache s) (fields s) (own s)
    (listeners s) (arrays s) n (ticks s) (trace s).

Definition tick (s : State) : State :=
  mkState (heap s) (next_addr s) (proxy_cache s) (fields s) (own s)
    (listeners s) (arrays s) (next_id s) (S (ticks s)) (trace s).

Definition log (e : Effect) (s : State) : State :=
  mkState (heap s) (next_addr s) (proxy_cache s) (fields s) (own s)
    (listeners s) (arrays s) (next_id s) (ticks s) (trace s ++ [e]).

(** A fresh identity. *)
Definition fresh_id (s : State) : nat * State :=
  (next_id s, set_next_id (S (next_id s)) s).

(** The user allocates an object or array literal. *)
Definition alloc (o : RawObj) (s : State) : ObjRef * State :=
  (Raw (next_addr s), set_heap (<[next_addr s := o]> (heap s)) (S (next_addr s)) s).

(** ** The event bus *)

(** The listener array registered under an event, if any. *)
Definition listeners_of (event : string) (s : State) : option (list Fn) :=
  listeners s !! event ≫= λ arr, arrays s !! arr.

(** Install a new empty array under [event]. *)
Definition new_array (event : string) (s : State) : State :=
  let '(arr, s1) := fresh_id s in
  set_listeners (<[event := arr]> (listeners s1))
    (set_arrays (<[arr := []]> (arrays s1)) s1).

(** [on(event, callback)] *)
Definition on (event : string) (callback : Fn) (s : State) : Fn * State :=
  let s1 := match listeners s !! event with
            | None => new_array event s
            | Some _ => s
            end in
  let s2 := match listeners s1 !! event with
            | Some arr =>
                set_arrays (alter (λ l, l ++ [callback]) arr (arrays s1)) s1
            | None => s1
            end in
  let '(u, s3) := fresh_id s2 in
  (CUnsub u event callback, s3).

(** [indexOf] followed by [splice(index, 1)]: drop the first occurrence. *)
Fixpoint remove_first (f : Fn) (l : list Fn) : list Fn :=
  match l with
  | [] => []
  | g :: r => if decide (g = f) then r else g :: remove_first f r
  end.

(** [off(event, callback)] *)
Definition off (event : string) (callback : Fn) (s : State) : State :=
  match listeners s !! event with
  | None => s
  | Some arr => set_arrays (alter (remove_first callback) arr (arrays s)) s
  end.

(** [once(event, callback)] *)
Definition once (event : string) (callback : Fn) (s : State) : Fn * State :=
  let '(w, s1) := fresh_id s in
  on event (COnce w event callback) s1.

(** [removeAllListeners(event = null)]; the empty string is falsy. *)
Definition removeAllListeners (event : option string) (s : State) : State :=
  match event with
  | Some ev =>
      if decide (ev = "") then set_listeners ∅ s else new_array ev s
  | None => set_listeners ∅ s
  end.

(** [getListenerCount(event)] *)
Definition getListenerCount (event : string) (s : State) : nat :=
  match listeners_of event s with
  | Some l => length l
  | None => 0
  end.

(** [hasListeners(event)] *)
Definition hasListeners (event : string) (s : State) : bool :=
  bool_decide (0 < getListenerCount event s).

(** Outcome of running code of the class against a state. *)
Inductive Outcome (A : Type) :=
  | Ret (a : A) (s : State)       (* normal completion *)
  | Exc (e : Exn) (s : State)     (* an exception reaches the caller *)
  | OutOfFuel                     (* the dispatch loop did not finish *)
  | Unmodelled.                   (* an engine primitive was [Stuck] *)
Arguments Ret {A} a s.
Arguments Exc {A} e s.
Arguments OutOfFuel {A}.
Arguments Unmodelled {A}.

Definition bind {A B} (m : State → Outcome A) (f : A → State → Outcome B)
  : State → Outcome B :=
  λ s, match m s with
       | Ret a s1 => f a s1
       | Exc e s1 => Exc e s1
       | OutOfFuel => OutOfFuel
       | Unmodelled => Unmodelled
       end.

Definition ret {A} (a : A) : State → Outcome A := λ s, Ret a s.

(** Lift an engine primitive. *)
Definition lift {A} (r : Res A) : State → Outcome A :=
  λ s, match r with
       | Ok a => Ret a s
       | Throw e => Exc e s
       | Stuck => Unmodelled
       end.

(** Lift a step that cannot fail. *)
Definition step {A} (f : State → A * State) : State → Outcome A :=
  λ s, let '(a, s1) := f s in Ret a s1.

Definition effect (f : State → State) : State → Outcome unit :=
  λ s, Ret tt (f s).

Notation "'let*' x := m 'in' k" := (bind m (λ x, k))
  (at level 10, x name, m at level 100, k at level 200, only parsing).
Notation "'run' m 'then' k" := (bind m (λ _, k))
  (at level 10, m at level 100, k at level 200, only parsing).

Section ReactiveContext.

(** The body of every user function, and the clock read by [Date.now]. *)
Variable prog : nat → list Action.
Variable now : nat → Z.

(** [Date.now()] *)
Definition Date_now (s : State) : Z * State := (now (ticks s), tick s).

(** Run the body of a user function; a throw abandons the rest. *)
Fixpoint exec_actions (acts : list Action) (s : State) : option Exn * State :=
  match acts with
  | [] => (None, s)
  | AOn ev f :: r => exec_actions r (snd (on ev f s))
  | AOff ev f :: r => exec_actions r (off ev f s)
  | AOnce ev f :: r => exec_actions r (snd (once ev f s))
  | ARemoveAll ev :: r => exec_actions r (removeAllListeners ev s)
  | AThrow tag :: _ => (Some (UserError tag), s)
  end.

(** Call [f(data, this)]: the exception thrown, if any, and the state. *)
Fixpoint call_fn (f : Fn) (data : Payload) (s : State) : option Exn * State :=
  let s0 := log (ECall f data) s in
  match f with
  | CUser id => exec_actions (prog id) s0
  | COnce _ event callback =>
      (* callback(data, ctx); this.off(event, wrapper) *)
      match call_fn callback data s0 with
      | (None, s1) => (None, off event f s1)
      | (Some e, s1) => (Some e, s1)
      end
  | CUnsub _ event callback => (None, off event callback s0)
  end.

(** The [for ... of] loop of [#emit] over the array object [arr]: the
    iterator holds an index into the live array. *)
Fixpoint emit_loop (fuel : nat) (arr i : nat) (event : string)
    (data : Payload) (s : State) : option State :=
  match fuel with
  | 0 => None
  | S fuel' =>
      match arrays s !! arr ≫= (.!! i) with
      | None => Some s
      | Some callback =>
          let s1 := match call_fn callback data s with
                    | (None, s1) => s1
                    | (Some error, s1) => log (EError event error) s1
                    end in
          emit_loop fuel' arr (S i) event data s1
      end
  end.

(** [#emit(event, data)] *)
Definition emit (fuel : nat) (event : string) (data : Payload)
  : State → Outcome unit :=
  λ s, let s0 := log (EEmit event data) s in
       match listeners s0 !! event with
       | None => Ret tt s0
       | Some arr =>
           match emit_loop fuel arr 0 event data s0 with
           | Some s1 => Ret tt s1
           | None => OutOfFuel
           end
       end.

(** ** Reactive nodes *)

(** [Array.isArray(obj)]; a proxy is an array when its target is. *)
Fixpoint is_array (r : ObjRef) (s : State) : bool :=
  match r with
  | Raw a => match heap s !! a with
             | Some o => raw_is_array o
             | None => false
             end
  | Prox _ _ obj => is_array obj s
  end.

Definition Array_isArray (v : Value) (s : State) : bool :=
  match v with
  | VObj r => is_array r s
  | _ => false
  end.

(** [ARRAY_MUTATORS.includes(prop)] *)
Definition is_mutator (prop : Key) : option string :=
  match prop with
  | KStr p => if bool_decide (p ∈ ARRAY_MUTATORS) then Some p else None
  | KSym _ => None
  end.

(** [#createReactive(target, namespace)] *)
Definition createReactive (target : Value) (namespace : string) (s : State)
  : Value * State :=
  match target with
  | VObj r =>
      match proxy_cache s !! ident r with
      | Some proxy => (VObj proxy, s)
      | None =>
          let '(id, s1) := fresh_id s in
          let proxy := Prox id namespace r in
          (VObj proxy, set_cache (<[ident r := proxy]> (proxy_cache s1)) s1)
      end
  | _ => (target, s)     (* null, or typeof target !== 'object' *)
  end.

Definition reassign_warning (type prop : string) : string :=
  "⚠️ Reassigning " +:+ type +:+ " '" +:+ prop +:+ "' removes its reactivity. "
    +:+ "Consider modifying its properties instead.".

Definition root_warning (type field_name : string) : string :=
  "⚠️ Reassigning root " +:+ type +:+ " '" +:+ field_name
    +:+ "' removes its reactivity. "
    +:+ "Consider modifying its properties instead.".

(** [old_value !== null && old_value !== undefined &&
     typeof old_value === 'object'] *)
Definition holds_object (old_value : Value) : bool :=
  negb (bool_decide (old_value = VNull))
  && negb (bool_decide (old_value = VUndef))
  && bool_decide (typeof old_value = "object").

Definition type_name (v : Value) (s : State) : string :=
  if Array_isArray v s then "array" else "object".


(** [obj[prop]]: a plain lookup on a raw object, the [get] trap on a
    proxy. *)
Fixpoint obj_get (fuel : nat) (r : ObjRef) (prop : Key)
  : State → Outcome Value :=
  match r with
  | Raw a =>
      λ s, match heap s !! a with
           | Some o => Ret (raw_get o prop) s
           | None => Unmodelled
           end
  | Prox _ namespace obj =>
      let* value := obj_get fuel obj prop in
      λ s,
        match (if is_array obj s then is_mutator prop else None) with
        | Some m => Ret (VMut namespace obj m) s
        | None =>
            if is_object value then
              (let* p := lift (key_to_string prop) in
               step (createReactive value (namespace +:+ "." +:+ p))) s
            else
              match prop with
              | KStr p =>
                  if negb (String.prefix "_" p) then
                    (let* t1 := step Date_now in
                     run emit fuel (namespace +:+ ":" +:+ p +:+ ":read")
                           (PRead p value t1) then
                     let* t2 := step Date_now in
                     run emit fuel (namespace +:+ ":read")
                           (PRead p value t2) then
                     ret value) s
                  else Ret value s
              | KSym _ => Ret value s
              end
        end
  end.

(** [obj[prop] = new_value]: a plain store on a raw object, the [set]
    trap on a proxy. *)
Fixpoint obj_set (fuel : nat) (r : ObjRef) (prop : Key) (new_value : Value)
  : State → Outcome bool :=
  match r with
  | Raw a =>
      λ s, match heap s !! a with
           | Some o =>
               match raw_set o prop new_value with
               | Ok o' =>
                   Ret true (set_heap (<[a := o']> (heap s)) (next_addr s) s)
               | Throw e => Exc e s
               | Stuck => Unmodelled
               end
           | None => Unmodelled
           end
  | Prox _ namespace obj =>
      let* old_value := obj_get fuel obj prop in
      run (if holds_object old_value then
             let* p := lift (key_to_string prop) in
             λ s, Ret tt (log (EWarn (reassign_warning (type_name old_value s) p)) s)
           else ret tt) then
      run obj_set fuel obj prop new_value then
      let* p := lift (key_to_string prop) in
      let* t1 := step Date_now in
      run emit fuel (namespace +:+ ":" +:+ p +:+ ":change")
            (PChange p old_value new_value t1) then
      let* t2 := step Date_now in
      run emit fuel (namespace +:+ ":change")
            (PChange p old_value new_value t2) then
      ret true
  end.

(** [delete obj[prop]]: no [deleteProperty] trap is installed, so the
    operation reaches the raw target. *)
Fixpoint obj_delete (r : ObjRef) (prop : Key) : State → Outcome bool :=
  match r with
  | Raw a =>
      λ s, match heap s !! a with
           | Some o =>
               let '(o', b) := raw_delete o prop in
               Ret b (set_heap (<[a := o']> (heap s)) (next_addr s) s)
           | None => Unmodelled
           end
  | Prox _ _ obj => obj_delete obj prop
  end.

(** Calling the arrow function the [get] trap returned for a mutator. *)
Definition call_mutator (fuel : nat) (namespace : string) (obj : ObjRef)
    (prop : string) (args : list Value) : State → Outcome Value :=
  match obj with
  | Raw a =>
      λ s, match heap s !! a with
           | Some (OArray elems props) =>
               (* Array.prototype[prop].apply(obj, args) *)
               match array_proto prop elems args with
               | Ok (elems', r) =>
                   let s1 := set_heap (<[a := OArray elems' props]> (heap s))
                               (next_addr s) s in
                   let '(result, s2) :=
                     match r with
                     | BThis => (VObj obj, s1)
                     | BVal v => (v, s1)
                     | BNew l => let '(n, s2) := alloc (OArray l []) s1 in
                                 (VObj n, s2)
                     end in
                   (let* len := obj_get fuel obj (KStr "length") in
                    let* t := step Date_now in
                    run emit fuel (namespace +:+ ":change")
                          (PMutation prop args len t) then
                    ret result) s2
               | Throw e => Exc e s
               | Stuck => Unmodelled
               end
           | _ => Unmodelled
           end
  | Prox _ _ _ => λ _, Unmodelled
  end.

(** Calling a value. *)
Definition call_value (fuel : nat) (f : Value) (args : list Value)
  : State → Outcome Value :=
  match f with
  | VMut namespace obj prop => call_mutator fuel namespace obj prop args
  | VFun _ => λ _, Unmodelled
  | _ => λ s, Exc (TypeError "not a function") s
  end.

(** ** Fields of the host *)

(** The accessor pair installed by [Object.defineProperty]. *)
Definition field_get (field_name : string) (s : State) : Value :=
  default VUndef (fields s !! field_name).

Definition field_set (fuel : nat) (field_name : string) (new_value : Value)
  : State → Outcome unit :=
  λ s,
    let old_value := default VUndef (fields s !! field_name) in
    (run (if holds_object old_value then
            effect (log (EWarn (root_warning (type_name old_value s) field_name)))
          else ret tt) then
     let* v := step (createReactive new_value field_name) in
     run effect (λ s, set_fields (<[field_name := v]> (fields s)) s) then
     let* t := step Date_now in
     emit fuel (field_name +:+ ":change")
       (PChange field_name old_value new_value t)) s.

(** [createReactiveFields(definitions)], over [Object.entries(definitions)]. *)
Fixpoint createReactiveFields (definitions : list (string * Value))
  : State → Outcome unit :=
  match definitions with
  | [] => ret tt
  | (field_name, initial_value) :: rest =>
      λ s,
        if decide (field_name ∈ own s) then
          Exc (TypeError ("Field '" +:+ field_name +:+ "' already exists")) s
        else
          (let* v := step (createReactive initial_value field_name) in
           run effect (λ s, set_own ({[field_name]} ∪ own s)
                              (set_fields (<[field_name := v]> (fields s)) s)) then
           createReactiveFields rest) s
  end.

(** ** Programs against the public surface *)

(** Assignment to a property of the host: the installed setter for a
    declared field, an ordinary own property otherwise. *)
Definition host_set (fuel : nat) (name : string) (v : Value)
  : State → Outcome unit :=
  λ s, match fields s !! name with
       | Some _ => field_set fuel name v s
       | None => Ret tt (set_own ({[name]} ∪ own s) s)
       end.

(** Calling the cleanup function returned by [on] or [once]. *)
Definition unsubscribe (f : Fn) (s : State) : State :=
  match f with
  | CUnsub _ event callback => off event callback s
  | _ => s
  end.

(** One operation of a client of the host. *)
Inductive Op :=
  | OpAlloc (o : RawObj)
  | OpCreateFields (definitions : list (string * Value))
  | OpHostSet (name : string) (v : Value)
  | OpGet (r : ObjRef) (k : Key)
  | OpSet (r : ObjRef) (k : Key) (v : Value)
  | OpDelete (r : ObjRef) (k : Key)
  | OpCall (f : Value) (args : list Value)
  | OpOn (event : string) (f : Fn)
  | OpOff (event : string) (f : Fn)
  | OpOnce (event : string) (f : Fn)
  | OpRemoveAll (event : option string)
  | OpUnsubscribe (f : Fn).

Definition discard {A} (m : State → Outcome A) : State → Outcome unit :=
  let* _ := m in ret tt.

Definition run_op (fuel : nat) (op : Op) : State → Outcome unit :=
  match op with
  | OpAlloc o => discard (step (alloc o))
  | OpCreateFields definitions => createReactiveFields definitions
  | OpHostSet name v => host_set fuel name v
  | OpGet r k => discard (obj_get fuel r k)
  | OpSet r k v => discard (obj_set fuel r k v)
  | OpDelete r k => discard (obj_delete r k)
  | OpCall f args => discard (call_value fuel f args)
  | OpOn event f => discard (step (on event f))
  | OpOff event f => effect (off event f)
  | OpOnce event f => discard (step (once event f))
  | OpRemoveAll event => effect (removeAllListeners event)
  | OpUnsubscribe f => effect (unsubscribe f)
  end.

(** The state a client continues from: after a normal completion, or
    after catching an exception. *)
Definition after {A} (o : Outcome A) : option State :=
  match o with
  | Ret _ s | Exc _ s => Some s
  | OutOfFuel | Unmodelled => None
  end.

(** [steps s s']: some client program leads from [s] to [s']. *)
Inductive steps : State → State → Prop :=
  | steps_done s : steps s s
  | steps_op fuel op s s1 s2 :
      after (run_op fuel op s) = Some s1 → steps s1 s2 → steps s s2.

(** A straight-line client program; [None] when an operation does not
    complete. *)
Fixpoint run_ops (fuel : nat) (ops : list Op) (s : State) : option State :=
  match ops with
  | [] => Some s
  | op :: rest => after (run_op fuel op s) ≫= run_ops fuel rest
  end.

(** ** Observations on traces and listener tables *)

(** A function whose execution never subscribes a listener. *)
Fixpoint nosub (f : Fn) : bool :=
  match f with
  | CUser id =>
      forallb (λ a, match a with AOn _ _ | AOnce _ _ => false | _ => true end)
        (prog id)
  | COnce _ _ callback => nosub callback
  | CUnsub _ _ _ => true
  end.

(** No listener array reaches [fuel] entries, and no function stored in
    one subscribes: every dispatch loop then ends within [fuel]
    iterations. *)
Definition steady (fuel : nat) (s : State) : Prop :=
  0 < fuel ∧
  map_Forall (λ _ l, length l < fuel ∧ forallb nosub l = true) (arrays s).

#[global] Instance steady_dec fuel s : Decision (steady fuel s).
Proof. unfold steady. apply _. Defined.

(** A user function that only returns or throws. *)
Definition inert (f : Fn) : bool :=
  match f with
  | CUser id =>
      forallb (λ a, match a with AThrow _ => true | _ => false end) (prog id)
  | _ => false
  end.

(** What an inert function leaves in the trace of a dispatch of [event]. *)
Definition inert_effects (event : string) (data : Payload) (f : Fn)
  : list Effect :=
  ECall f data ::
  match f with
  | CUser id =>
      match prog id with
      | AThrow tag :: _ => [EError event (UserError tag)]
      | _ => []
      end
  | _ => []
  end.

(** Length of a listener array, [0] when there is none. *)
Definition len_at (arr : nat) (s : State) : nat :=
  match arrays s !! arr with
  | Some l => length l
  | None => 0
  end.

(** [calmer n s s']: [s'] is as steady as [s] and no array has grown. *)
Definition calmer (n : nat) (s s' : State) : Prop :=
  steady n s → steady n s' ∧ ∀ arr, len_at arr s' ≤ len_at arr s.

(** The tail shared by both traps: [Date.now()], [#emit], [Date.now()],
    [#emit], return. *)
Definition emit_twice {A} (fuel : nat) (e1 e2 : string) (mk : Z → Payload)
    (r : A) : State → Outcome A :=
  let* t1 := step Date_now in
  run emit fuel e1 (mk t1) then
  let* t2 := step Date_now in
  run emit fuel e2 (mk t2) then
  ret r.

End ReactiveContext.

(** The [#emit] calls recorded in a trace. *)
Definition emitted (t : list Effect) : list (string * Payload) :=
  omap (λ e, match e with EEmit ev d => Some (ev, d) | _ => None end) t.

(** The functions invoked in a trace, in order. *)
Definition called (t : list Effect) : list Fn :=
  omap (λ e, match e with ECall f _ => Some f | _ => None end) t.

(** The warnings recorded in a trace. *)
Definition warned (t : list Effect) : list string :=
  omap (λ e, match e with EWarn m => Some m | _ => None end) t.

(** Everything of the state that listener code cannot reach. *)
Definition store_of (s : State) :=
  (heap s, next_addr s, proxy_cache s, fields s, own s).

Definition data_of (s : State) := (store_of s, ticks s).

(** Listener code leaves the data alone and neither emits nor warns. *)
Definition bus_step (s s' : State) : Prop :=
  data_of s' = data_of s
  ∧ emitted (trace s') = emitted (trace s)
  ∧ warned (trace s') = warned (trace s).



(** ** Invariants of the identity cache *)

(** Every cached node is a proxy over the object it is cached for. *)
Definition cache_wf (s : State) : Prop :=
  map_Forall (λ k p, ∃ id ns t, p = Prox id ns t ∧ ident t = k)
    (proxy_cache s).

(** The cache only gains entries, and stays well formed. *)
Definition grows (s s' : State) : Prop :=
  proxy_cache s ⊆ proxy_cache s' ∧ (cache_wf s → cache_wf s').

(** [m] relates the state it starts from to the state it ends in. *)
Definition preserves {A} (R : State → State → Prop) (m : State → Outcome A)
  : Prop :=
  ∀ s, match m s with
       | Ret _ s' | Exc _ s' => R s s'
       | OutOfFuel | Unmodelled => True
       end.

(** The state with further effects appended to its trace. *)
Definition logs (es : list Effect) (s : State) : State :=
  mkState (heap s) (next_addr s) (proxy_cache s) (fields s) (own s)
    (listeners s) (arrays s) (next_id s) (ticks s) (trace s ++ es).

(** ** Sample listeners and client programs

    Used to run the model on concrete inputs. *)

Definition demo_prog (id : nat) : list Action :=
  match id with
  | 1 => [AThrow 7]                            (* always throws *)
  | 2 => [AOff "state:change" (CUser 2)]       (* unsubscribes itself *)
  | 3 => [AOn "state:change" (CUser 0)]        (* subscribes listener 0 *)
  | _ => []                                    (* just returns *)
  end.

Definition demo_now (n : nat) : Z := 1700000000000 + Z.of_nat n.

(** The state a client program leaves behind, started on a new host. *)
Definition run_demo (ops : list Op) : option State :=
  run_ops demo_prog demo_now 5 ops initial.

Definition state_after (ops : list Op) : State :=
  default initial (run_demo ops).

(** [createReactiveFields({ state: { count: 0 } })] *)
Definition counter_setup : list Op :=
  [ OpAlloc (OPlain [(KStr "count", VNum 0)]);
    OpCreateFields [("state", VObj (Raw 0))] ].

(** [ctx.state] *)
Definition state_node : ObjRef := Prox 0 "state" (Raw 0).

(** [ctx.state.count = n] *)
Definition write_count (n : Z) : Op :=
  OpSet state_node (KStr "count") (VNum n).

(** [createReactiveFields({ a: { b: { c: 1 } } })], listeners on
    [a.b:c:change] and on [a:change], and a first read of [ctx.a.b]. *)
Definition nested_setup : list Op :=
  [ OpAlloc (OPlain [(KStr "c", VNum 1)]);
    OpAlloc (OPlain [(KStr "b", VObj (Raw 0))]);
    OpCreateFields [("a", VObj (Raw 1))];
    OpOn "a.b:c:change" (CUser 0);
    OpOn "a:change" (CUser 4);
    OpGet (Prox 0 "a" (Raw 1)) (KStr "b") ].

(** [ctx.a.b] *)
Definition ab_node : ObjRef := Prox 5 "a.b" (Raw 0).

(** [createReactiveFields({ items: [] })] with a listener on
    [items:change]. *)
Definition items_setup : list Op :=
  [ OpAlloc (OArray [] []);
    OpCreateFields [("items", VObj (Raw 0))];
    OpOn "items:change" (CUser 0) ].


(** [createReactiveFields({ state: { user: { name: 'a' } } })], a
    reference to [ctx.state.user] taken, a listener subscribed to
    [state.user:name:change], then [ctx.state.user = { name: 'New' }]. *)
Definition reassign_setup : list Op :=
  [ OpAlloc (OPlain [(KStr "name", VStr "a")]);
    OpAlloc (OPlain [(KStr "user", VObj (Raw 0))]);
    OpCreateFields [("state", VObj (Raw 1))];
    OpGet (Prox 0 "state" (Raw 1)) (KStr "user");
    OpOn "state.user:name:change" (CUser 0);
    OpAlloc (OPlain [(KStr "name", VStr "New")]);
    OpSet (Prox 0 "state" (Raw 1)) (KStr "user") (VObj (Raw 2)) ].

(** The reference to [ctx.state.user] taken before the reassignment. *)
Definition old_user_node : ObjRef := Prox 1 "state.user" (Raw 0).

(** ** Further observations *)

(** [getRegisteredEvents()], as the set of the keys of [#listeners]; the
    order in which [Object.keys] lists them is not modelled. *)
Definition getRegisteredEvents (s : State) : gset string :=
  dom (listeners s).

(** The listeners currently registered for an event, [[]] when the event
    has no entry. *)
Definition listening (event : string) (s : State) : list Fn :=
  default [] (listeners_of event s).

(** The listener table is well formed: a registered event has an array,
    two events never share one, and every array was allocated. *)
Definition bus_wf (s : State) : Prop :=
  (∀ e arr, listeners s !! e = Some arr → is_Some (arrays s !! arr))
  ∧ (∀ e1 e2 arr,
       listeners s !! e1 = Some arr → listeners s !! e2 = Some arr → e1 = e2)
  ∧ (∀ arr, is_Some (arrays s !! arr) → arr < next_id s).

Definition keeps_bus (s s' : State) : Prop := bus_wf s → bus_wf s'.

(** The raw heap, the fields and the own properties are the same. *)
Definition same_raw (s s' : State) : Prop :=
  heap s' = heap s ∧ fields s' = fields s ∧ own s' = own s.


(** A user function whose body only clears listeners or throws. *)
Definition clearing (prog : nat → list Action) (f : Fn) : bool :=
  match f with
  | CUser id =>
      forallb (λ a, match a with
                    | ARemoveAll _ | AThrow _ => true
                    | _ => false
                    end) (prog id)
  | _ => false
  end.

(** More sample listeners: 6 subscribes itself to the event it handles,
    7 clears the listeners of that event. *)
Definition demo_prog2 (id : nat) : list Action :=
  match id with
  | 6 => [AOn "state:change" (CUser 6)]
  | 7 => [ARemoveAll (Some "state:change")]
  | _ => demo_prog id
  end.

Definition state_after2 (ops : list Op) : State :=
  default initial (run_ops demo_prog2 demo_now 5 ops initial).

(* ================================================================= *)
(** * Properties *)

Section Properties.

Variable prog : nat → list Action.
Variable now : nat → Z.

(** ** The subscription interface touches only the listener table *)

Lemma bus_step_refl s : bus_step s s.
Proof. done. Qed.

Lemma bus_step_trans s1 s2 s3 :
  bus_step s1 s2 → bus_step s2 s3 → bus_step s1 s3.
Proof. unfold bus_step. intros (-> & -> & ->) (-> & -> & ->). done. Qed.

Lemma new_array_frame ev s :
  data_of (new_array ev s) = data_of s ∧ trace (new_array ev s) = trace s.
Proof. done. Qed.

Lemma off_frame ev f s :
  data_of (off ev f s) = data_of s ∧ trace (off ev f s) = trace s.
Proof. unfold off. by destruct (listeners s !! ev). Qed.

Lemma on_frame ev f s :
  data_of (on ev f s).2 = data_of s ∧ trace (on ev f s).2 = trace s.
Proof.
  unfold on. destruct (listeners s !! ev) as [arr|] eqn:E.
  - rewrite E. done.
  - destruct (listeners (new_array ev s) !! ev); done.
Qed.

Lemma once_frame ev f s :
  data_of (once ev f s).2 = data_of s ∧ trace (once ev f s).2 = trace s.
Proof.
  change (once ev f s)
    with (on ev (COnce (next_id s) ev f) (set_next_id (S (next_id s)) s)).
  destruct (on_frame ev (COnce (next_id s) ev f) (set_next_id (S (next_id s)) s))
    as [-> ->]. done.
Qed.

Lemma removeAll_frame ev s :
  data_of (removeAllListeners ev s) = data_of s
  ∧ trace (removeAllListeners ev s) = trace s.
Proof. destruct ev as [ev|]; simpl; [case_decide|]; done. Qed.

Lemma exec_actions_frame acts s :
  data_of (exec_actions acts s).2 = data_of s
  ∧ trace (exec_actions acts s).2 = trace s.
Proof.
  revert s. induction acts as [|a acts IH]; intros s; [done|].
  destruct a; cbn [exec_actions]; try done.
  - destruct (IH (on event f s).2) as [-> ->]. apply on_frame.
  - destruct (IH (off event f s)) as [-> ->]. apply off_frame.
  - destruct (IH (once event f s).2) as [-> ->]. apply once_frame.
  - destruct (IH (removeAllListeners event s)) as [-> ->].
    apply removeAll_frame.
Qed.

Lemma emitted_snoc t e :
  emitted (t ++ [e]) = emitted t ++ emitted [e].
Proof. apply omap_app. Qed.

Lemma warned_snoc t e :
  warned (t ++ [e]) = warned t ++ warned [e].
Proof. apply omap_app. Qed.

Lemma log_call_step f d s : bus_step s (log (ECall f d) s).
Proof.
  unfold bus_step. cbn [log trace].
  rewrite emitted_snoc, warned_snoc. cbn. by rewrite !app_nil_r.
Qed.

Lemma log_error_step ev e s : bus_step s (log (EError ev e) s).
Proof.
  unfold bus_step. cbn [log trace].
  rewrite emitted_snoc, warned_snoc. cbn. by rewrite !app_nil_r.
Qed.

Lemma frame_bus_step s s' :
  data_of s' = data_of s ∧ trace s' = trace s → bus_step s s'.
Proof. intros [H1 H2]. unfold bus_step. by rewrite H1, H2. Qed.

Lemma call_fn_frame f d s : bus_step s (call_fn prog f d s).2.
Proof.
  revert s. induction f as [id|w ev cb IH|u ev cb IH]; intros s;
    cbn [call_fn].
  - eapply bus_step_trans; [apply log_call_step|].
    apply frame_bus_step, exec_actions_frame.
  - specialize (IH (log (ECall (COnce w ev cb) d) s)).
    destruct (call_fn prog cb d (log (ECall (COnce w ev cb) d) s))
      as [[e|] s1]; cbn [snd] in *.
    + eapply bus_step_trans; [apply log_call_step|done].
    + eapply bus_step_trans; [apply log_call_step|].
      eapply bus_step_trans; [done|]. apply frame_bus_step, off_frame.
  - eapply bus_step_trans; [apply log_call_step|].
    apply frame_bus_step, off_frame.
Qed.

Lemma emit_loop_frame fuel arr i ev d s s' :
  emit_loop prog fuel arr i ev d s = Some s' → bus_step s s'.
Proof.
  revert i s. induction fuel as [|fuel IH]; intros i s; cbn [emit_loop];
    [done|].
  destruct (arrays s !! arr ≫= (.!! i)) as [cb|].
  - intros H. apply IH in H. eapply bus_step_trans; [|exact H].
    pose proof (call_fn_frame cb d s) as Hc.
    destruct (call_fn prog cb d s) as [[e|] s1]; cbn [snd] in Hc; [|done].
    eapply bus_step_trans; [done|apply log_error_step].
  - intros [= <-]. apply bus_step_refl.
Qed.

(** [#emit] returns normally or not at all, and what it adds to the
    trace is its own record followed by listener activity. *)
Lemma emit_outcome fuel ev d s :
  emit prog fuel ev d s = OutOfFuel
  ∨ ∃ s', emit prog fuel ev d s = Ret tt s'
          ∧ data_of s' = data_of s
          ∧ emitted (trace s') = emitted (trace s) ++ [(ev, d)]
          ∧ warned (trace s') = warned (trace s).
Proof.
  unfold emit.
  assert (Hlog : emitted (trace (log (EEmit ev d) s))
                 = emitted (trace s) ++ [(ev, d)]
                 ∧ warned (trace (log (EEmit ev d) s)) = warned (trace s)).
  { cbn [log trace]. rewrite emitted_snoc, warned_snoc. cbn.
    by rewrite app_nil_r. }
  destruct Hlog as [He Hw].
  destruct (listeners (log (EEmit ev d) s) !! ev) as [arr|].
  - destruct (emit_loop prog fuel arr 0 ev d (log (EEmit ev d) s))
      as [s1|] eqn:E; [|by left].
    right. exists s1. apply emit_loop_frame in E as (Hd & He' & Hw').
    by rewrite Hd, He', Hw', He, Hw.
  - right. eexists. by rewrite He, Hw.
Qed.

(** ** Dispatch terminates when listeners do not subscribe *)

Lemma remove_first_length f l : length (remove_first f l) ≤ length l.
Proof.
  induction l as [|g l IH]; cbn [remove_first]; [done|].
  case_decide; simpl; lia.
Qed.

Lemma remove_first_forallb (P : Fn → bool) f l :
  forallb P l = true → forallb P (remove_first f l) = true.
Proof.
  induction l as [|g l IH]; cbn [remove_first forallb]; [done|].
  intros [? ?]%andb_true_iff. case_decide; [done|].
  cbn [forallb]. apply andb_true_iff. auto.
Qed.

Lemma calmer_refl n s : calmer prog n s s.
Proof. by intros H. Qed.

Lemma calmer_trans n s1 s2 s3 :
  calmer prog n s1 s2 → calmer prog n s2 s3 → calmer prog n s1 s3.
Proof.
  intros H12 H23 H1. destruct (H12 H1) as [H2 L12].
  destruct (H23 H2) as [H3 L23]. split; [done|].
  intros arr. specialize (L12 arr). specialize (L23 arr). lia.
Qed.

Lemma calmer_log n e s : calmer prog n s (log e s).
Proof. by intros H. Qed.

Lemma calmer_off n ev f s : calmer prog n s (off ev f s).
Proof.
  intros [Hn H]. unfold off. destruct (listeners s !! ev) as [arr|]; [|done].
  split; [split; [done|]|].
  - intros i l. cbn. rewrite lookup_alter.
    case_decide as Hi; [subst i|by apply H].
    destruct (arrays s !! arr) as [l0|] eqn:E; [|done].
    intros [= <-]. destruct (H _ _ E) as [Hl Hf]. split.
    + pose proof (remove_first_length f l0). lia.
    + by apply remove_first_forallb.
  - intros i. unfold len_at. cbn. rewrite lookup_alter.
    case_decide as Hi; [subst i|done].
    destruct (arrays s !! arr) as [l0|]; cbn; [|done].
    apply remove_first_length.
Qed.

Lemma calmer_new_array n ev s : calmer prog n s (new_array ev s).
Proof.
  intros [Hn H]. split; [split; [done|]|].
  - intros i l. cbn. rewrite lookup_insert.
    case_decide; [|by apply H]. intros [= <-]. done.
  - intros i. unfold len_at. cbn. rewrite lookup_insert.
    case_decide; cbn; [lia|done].
Qed.

Lemma calmer_set_listeners n m s : calmer prog n s (set_listeners m s).
Proof. by intros H. Qed.

Lemma calmer_removeAll n ev s : calmer prog n s (removeAllListeners ev s).
Proof.
  destruct ev as [ev|]; cbn [removeAllListeners];
    [case_decide|]; auto using calmer_set_listeners, calmer_new_array.
Qed.

Lemma calmer_exec n acts s :
  forallb (λ a, match a with AOn _ _ | AOnce _ _ => false | _ => true end)
    acts = true →
  calmer prog n s (exec_actions acts s).2.
Proof.
  revert s. induction acts as [|a acts IH]; intros s; cbn [forallb];
    [intros _; apply calmer_refl|].
  intros [Ha Hr]%andb_true_iff. destruct a; cbn [exec_actions]; try done.
  - eapply calmer_trans; [apply calmer_off|by apply IH].
  - eapply calmer_trans; [apply calmer_removeAll|by apply IH].
Qed.

Lemma calmer_call n f d s :
  nosub prog f = true → calmer prog n s (call_fn prog f d s).2.
Proof.
  revert s. induction f as [id|w ev cb IH|u ev cb IH]; intros s Hf;
    cbn [call_fn].
  - eapply calmer_trans; [apply calmer_log|]. by apply calmer_exec.
  - specialize (IH (log (ECall (COnce w ev cb) d) s) Hf).
    destruct (call_fn prog cb d (log (ECall (COnce w ev cb) d) s))
      as [[e|] s1]; cbn [snd] in *.
    + eapply calmer_trans; [apply calmer_log|done].
    + eapply calmer_trans; [apply calmer_log|].
      eapply calmer_trans; [done|apply calmer_off].
  - eapply calmer_trans; [apply calmer_log|apply calmer_off].
Qed.

Lemma emit_loop_total n fuel arr i ev d s :
  steady prog n s → len_at arr s - i < fuel →
  ∃ s', emit_loop prog fuel arr i ev d s = Some s' ∧ steady prog n s'.
Proof.
  revert i s. induction fuel as [|fuel IH]; intros i s Hs Hlt; [lia|].
  cbn [emit_loop].
  destruct (arrays s !! arr ≫= (.!! i)) as [cb|] eqn:E; [|by eexists].
  destruct (arrays s !! arr) as [l|] eqn:El; [|done]. cbn in E.
  assert (Hi : i < length l) by (by eapply lookup_lt_Some).
  assert (Hcb : nosub prog cb = true).
  { destruct Hs as [_ Hs]. destruct (Hs _ _ El) as [_ Hall].
    rewrite forallb_forall in Hall. apply Hall.
    apply list_elem_of_In. by eapply list_elem_of_lookup_2. }
  destruct (calmer_call n cb d s Hcb Hs) as [Hs1 Hlen].
  specialize (Hlen arr). unfold len_at in Hlt, Hlen at 2.
  rewrite El in Hlt, Hlen.
  destruct (call_fn prog cb d s) as [[e|] s1]; cbn [snd] in *;
    apply IH; try done; unfold len_at in *; cbn; lia.
Qed.

Lemma emit_total fuel ev d s :
  steady prog fuel s →
  ∃ s', emit prog fuel ev d s = Ret tt s' ∧ steady prog fuel s'.
Proof.
  intros Hs. unfold emit.
  destruct (listeners (log (EEmit ev d) s) !! ev) as [arr|]; [|by eexists].
  destruct (emit_loop_total fuel fuel arr 0 ev d (log (EEmit ev d) s))
    as (s' & -> & Hs'); [done| |by eexists].
  destruct Hs as [Hn Hs]. unfold len_at. cbn.
  destruct (arrays s !! arr) as [l|] eqn:El; [|lia].
  destruct (Hs _ _ El). lia.
Qed.

(** [#emit] under a steady listener table: it returns, the data is
    untouched, and the trace gains exactly one [#emit] record. *)
Lemma emit_spec fuel ev d s :
  steady prog fuel s →
  ∃ s', emit prog fuel ev d s = Ret tt s'
        ∧ steady prog fuel s'
        ∧ data_of s' = data_of s
        ∧ emitted (trace s') = emitted (trace s) ++ [(ev, d)]
        ∧ warned (trace s') = warned (trace s).
Proof.
  intros Hs. destruct (emit_total fuel ev d s Hs) as (s' & E & Hs').
  destruct (emit_outcome fuel ev d s) as [H|(s'' & E' & H)]; [congruence|].
  exists s'. rewrite E in E'. injection E' as <-. done.
Qed.

(** ** Two emissions in a row

    Both traps end with the same shape: [Date.now()], [#emit], [Date.now()],
    [#emit], return. *)

Lemma steady_tick fuel s : steady prog fuel s → steady prog fuel (tick s).
Proof. done. Qed.

Lemma emit_twice_outcome {A} fuel e1 e2 mk (r : A) s :
  emit_twice prog now fuel e1 e2 mk r s = OutOfFuel
  ∨ ∃ s', emit_twice prog now fuel e1 e2 mk r s = Ret r s'
          ∧ store_of s' = store_of s
          ∧ ticks s' = S (S (ticks s))
          ∧ emitted (trace s') = emitted (trace s)
              ++ [(e1, mk (now (ticks s))); (e2, mk (now (S (ticks s))))]
          ∧ warned (trace s') = warned (trace s).
Proof.
  unfold emit_twice, bind, step, Date_now, ret.
  destruct (emit_outcome fuel e1 (mk (now (ticks s))) (tick s))
    as [->|(s1 & -> & D1 & E1 & W1)]; [by left|].
  destruct (emit_outcome fuel e2 (mk (now (ticks s1))) (tick s1))
    as [->|(s2 & -> & D2 & E2 & W2)]; [by left|].
  assert (store_of s1 = store_of s ∧ ticks s1 = S (ticks s)) as [S1 T1]
    by (split; [exact (f_equal fst D1) | exact (f_equal snd D1)]).
  assert (store_of s2 = store_of s1 ∧ ticks s2 = S (ticks s1)) as [S2 T2]
    by (split; [exact (f_equal fst D2) | exact (f_equal snd D2)]).
  right. exists s2. rewrite T1 in E2.
  change (trace (tick s1)) with (trace s1) in *.
  change (trace (tick s)) with (trace s) in *.
  rewrite E2, E1, W2, W1, S2, S1, T2, T1, <- app_assoc. done.
Qed.


(** ** The engine primitives *)

(** Every store is accepted, except one that sets the [length] of an
    array. *)
Lemma raw_set_accepts o k v :
  (raw_is_array o = true → k ≠ KStr "length") →
  ∃ o', raw_set o k v = Ok o'.
Proof.
  destruct o as [props|elems props]; cbn; [by eexists|]. intros Hk.
  destruct k as [p|n]; [|by eexists].
  case_decide as Hp; [subst p; by destruct Hk|].
  destruct (array_index p); by eexists.
Qed.

(** The five mutators without index arguments always complete. *)
Lemma array_proto_completes m elems args :
  m ∈ ["push"; "pop"; "shift"; "unshift"; "reverse"] →
  ∃ r, array_proto m elems args = Ok r.
Proof.
  intros Hm. unfold array_proto.
  repeat (apply elem_of_cons in Hm as [->|Hm]; [by eexists|]).
  by apply elem_of_nil in Hm.
Qed.

Example splice_middle :
  array_proto "splice" [VNum 1; VNum 2; VNum 3] [VNum 1; VNum 1; VStr "x"]
  = Ok ([VNum 1; VStr "x"; VNum 3], BNew [VNum 2]).
Proof. reflexivity. Qed.

Example fill_from_negative :
  array_proto "fill" [VNum 1; VNum 2; VNum 3] [VNum 0; VNum (-2)]
  = Ok ([VNum 1; VNum 0; VNum 0], BThis).
Proof. reflexivity. Qed.

Example copyWithin_tail :
  array_proto "copyWithin" [VNum 1; VNum 2; VNum 3; VNum 4; VNum 5]
    [VNum 0; VNum 3]
  = Ok ([VNum 4; VNum 5; VNum 3; VNum 4; VNum 5], BThis).
Proof. reflexivity. Qed.

Example sort_strings :
  array_proto "sort" [VStr "b"; VUndef; VStr "a"] []
  = Ok ([VStr "a"; VStr "b"; VUndef], BThis).
Proof. reflexivity. Qed.

Example index_beyond_length :
  raw_set (OArray [VNum 1] []) (KStr "3") (VNum 9)
  = Ok (OArray [VNum 1; VUndef; VUndef; VNum 9] []).
Proof. reflexivity. Qed.

(** ** Writes through a reactive node *)

(** The [set] trap of a node over a raw object, for a string key, when
    the store on the raw object goes through: warn if an object is
    replaced, store, emit twice, return [true]. *)
Lemma obj_set_node fuel id N a o o' p v s :
  heap s !! a = Some o →
  raw_set o (KStr p) v = Ok o' →
  let old := raw_get o (KStr p) in
  let s0 := if holds_object old
            then log (EWarn (reassign_warning (type_name old s) p)) s
            else s in
  obj_set prog now fuel (Prox id N (Raw a)) (KStr p) v s
  = emit_twice prog now fuel
      (N +:+ ":" +:+ p +:+ ":change") (N +:+ ":change")
      (PChange p old v) true
      (set_heap (<[a := o']> (heap s)) (next_addr s) s0).
Proof.
  intros Ho Hset old s0. subst s0 old.
  cbn [obj_set obj_get]. unfold bind at 1. rewrite Ho.
  destruct (holds_object (raw_get o (KStr p)));
    unfold bind, lift, ret; cbn [key_to_string log heap];
    rewrite Ho, Hset; reflexivity.
Qed.


(** ** Reads through a reactive node *)




(** ** Array mutators *)



(** ** Identity of reactive nodes *)

#[local] Instance grows_preorder : PreOrder grows.
Proof.
  split.
  - intros s. by split.
  - intros s1 s2 s3 [H1 W1] [H2 W2]. split; [by etrans|auto].
Qed.

Lemma grows_same s s' : proxy_cache s' = proxy_cache s → grows s s'.
Proof. intros H. unfold grows, cache_wf. by rewrite H. Qed.

Lemma preserves_ret {A} (a : A) : preserves grows (ret a).
Proof. intros s. unfold ret. reflexivity. Qed.

Lemma preserves_bind {A B} (m : State → Outcome A) (f : A → State → Outcome B) :
  preserves grows m → (∀ a, preserves grows (f a)) →
  preserves grows (bind m f).
Proof.
  intros Hm Hf s. unfold bind. specialize (Hm s).
  destruct (m s) as [a s1|e s1| |]; try done.
  specialize (Hf a s1). destruct (f a s1); try done; by etrans.
Qed.

Lemma preserves_lift {A} (r : Res A) : preserves grows (lift r).
Proof. intros s. destruct r; cbn; reflexivity || done. Qed.

Lemma preserves_step {A} (f : State → A * State) :
  (∀ s, grows s (f s).2) → preserves grows (step f).
Proof. intros H s. unfold step. specialize (H s). by destruct (f s). Qed.

Lemma preserves_effect (f : State → State) :
  (∀ s, grows s (f s)) → preserves grows (effect f).
Proof. intros H s. apply H. Qed.

Lemma preserves_discard {A} (m : State → Outcome A) :
  preserves grows m → preserves grows (discard m).
Proof. intros H. apply preserves_bind; [done|]. intros _. apply preserves_ret. Qed.

Lemma preserves_emit fuel ev d : preserves grows (emit prog fuel ev d).
Proof.
  intros s. destruct (emit_outcome fuel ev d s) as [->|(s' & -> & Hd & _)];
    [done|].
  apply grows_same. exact (f_equal (λ x, x.1.1.1.2) Hd).
Qed.

Lemma createReactive_grows v ns s : grows s (createReactive v ns s).2.
Proof.
  destruct v; try reflexivity. cbn [createReactive].
  destruct (proxy_cache s !! ident r) eqn:E; [reflexivity|].
  cbn. split.
  - by apply insert_subseteq.
  - intros Hwf. apply map_Forall_insert; [done|]. split; [|done].
    by eexists _, _, _.
Qed.

Ltac preserve :=
  repeat first
    [ apply preserves_ret
    | apply preserves_lift
    | apply preserves_emit
    | apply preserves_discard
    | apply preserves_step; intros ?; first
        [ apply createReactive_grows | by apply grows_same ]
    | apply preserves_effect; intros ?; by apply grows_same
    | apply preserves_bind; [|intros ?] ].

Lemma obj_get_grows fuel r k : preserves grows (obj_get prog now fuel r k).
Proof.
  induction r as [a|id N obj IH]; cbn [obj_get].
  - intros s. destruct (heap s !! a); [reflexivity|done].
  - apply preserves_bind; [done|]. intros value s.
    destruct (if is_array obj s then is_mutator k else None);
      [reflexivity|].
    destruct (is_object value).
    + revert s. preserve.
    + destruct k as [p|n]; [|reflexivity].
      destruct (negb (String.prefix "_" p)); [|reflexivity].
      revert s. preserve.
Qed.

Lemma obj_set_grows fuel r k v : preserves grows (obj_set prog now fuel r k v).
Proof.
  induction r as [a|id N obj IH]; cbn [obj_set].
  - intros s. destruct (heap s !! a); [|done].
    destruct (raw_set r k v); [by apply grows_same|reflexivity|done].
  - apply preserves_bind; [apply obj_get_grows|]. intros old.
    apply preserves_bind.
    { destruct (holds_object old); [|preserve].
      apply preserves_bind; [preserve|]. intros p s. by apply grows_same. }
    intros _. apply preserves_bind; [done|]. intros _. preserve.
Qed.

Lemma obj_delete_grows r k : preserves grows (obj_delete r k).
Proof.
  induction r as [a|id N obj IH]; cbn [obj_delete]; [|done].
  intros s. destruct (heap s !! a); [|done].
  destruct (raw_delete r k). by apply grows_same.
Qed.

Lemma preserves_from {A} (m : State → Outcome A) s s1 :
  preserves grows m → grows s s1 →
  match m s1 with
  | Ret _ s' | Exc _ s' => grows s s'
  | OutOfFuel | Unmodelled => True
  end.
Proof.
  intros Hm H1. specialize (Hm s1). destruct (m s1); try done; by etrans.
Qed.

Lemma call_value_grows fuel f args :
  preserves grows (call_value prog now fuel f args).
Proof.
  destruct f as [ | |b|z|str|g|N obj m|r0]; cbn [call_value];
    try (intros s; reflexivity || done).
  destruct obj as [a|]; cbn [call_mutator]; [|done].
  intros s. destruct (heap s !! a) as [[|elems props]|]; try done.
  destruct (array_proto m elems args) as [[elems' r]| |];
    [|reflexivity|done].
  destruct r as [|v|l]; cbn [alloc]; apply preserves_from;
    try (by apply grows_same);
    (apply preserves_bind; [apply obj_get_grows|]; intros ?; preserve).
Qed.

Lemma field_set_grows fuel name v :
  preserves grows (field_set prog now fuel name v).
Proof.
  intros s. unfold field_set. apply preserves_from; [|reflexivity].
  apply preserves_bind; [case_match; preserve|]. intros _. preserve.
Qed.

Lemma createReactiveFields_grows defs :
  preserves grows (createReactiveFields defs).
Proof.
  induction defs as [|[name v] defs IH]; cbn [createReactiveFields];
    [preserve|].
  intros s. case_decide; [reflexivity|].
  apply preserves_from; [|reflexivity]. preserve. exact IH.
Qed.

Lemma frame_grows s s' : data_of s' = data_of s → grows s s'.
Proof. intros H. apply grows_same. exact (f_equal (λ x, x.1.1.1.2) H). Qed.

Lemma run_op_grows fuel op : preserves grows (run_op prog now fuel op).
Proof.
  destruct op; cbn [run_op].
  - preserve.
  - apply createReactiveFields_grows.
  - unfold host_set. intros s.
    destruct (fields s !! name); [apply field_set_grows|].
    by apply grows_same.
  - apply preserves_discard, obj_get_grows.
  - apply preserves_discard, obj_set_grows.
  - apply preserves_discard, obj_delete_grows.
  - apply preserves_discard, call_value_grows.
  - apply preserves_discard, preserves_step. intros s.
    apply frame_grows, on_frame.
  - apply preserves_effect. intros s. apply frame_grows, off_frame.
  - apply preserves_discard, preserves_step. intros s.
    apply frame_grows, once_frame.
  - apply preserves_effect. intros s. apply frame_grows, removeAll_frame.
  - apply preserves_effect. intros s. destruct f; try reflexivity.
    apply frame_grows, off_frame.
Qed.

Lemma steps_grows s s' : steps prog now s s' → grows s s'.
Proof.
  induction 1 as [s|fuel op s s1 s2 Hop _ IH]; [reflexivity|].
  etrans; [|exact IH]. pose proof (run_op_grows fuel op s) as H.
  destruct (run_op prog now fuel op s); by simplify_eq/=.
Qed.

Lemma createReactive_again v ns ns' s s2 :
  grows (createReactive v ns s).2 s2 →
  createReactive v ns' s2 = ((createReactive v ns s).1, s2).
Proof.
  destruct v; try done. cbn [createReactive].
  destruct (proxy_cache s !! ident r) as [p|] eqn:E; cbn [fst snd].
  - intros [Hsub _]. by rewrite (lookup_weaken _ _ _ _ E Hsub).
  - intros [Hsub _].
    erewrite (lookup_weaken _ (proxy_cache s2)); [done| |exact Hsub].
    cbn. apply lookup_insert_eq.
Qed.

(** C4. In every state a client can reach, wrapping a raw object yields
    a proxy over that very object, and from then on (whatever the
    client does in between, and whatever namespace is asked for)
    every wrap of the same raw object, and every read of a property that
    holds it, returns the identical proxy. *)
Theorem node_identity_stable s a ns1 :
  steps prog now initial s →
  ∃ id ns,
    let p := Prox id ns (Raw a) in
    (createReactive (VObj (Raw a)) ns1 s).1 = VObj p
    ∧ ∀ s2, steps prog now (createReactive (VObj (Raw a)) ns1 s).2 s2 →
        (∀ ns2, createReactive (VObj (Raw a)) ns2 s2 = (VObj p, s2))
        ∧ (∀ fuel id' N b o q,
             heap s2 !! b = Some o →
             raw_get o (KStr q) = VObj (Raw a) →
             (if raw_is_array o then is_mutator (KStr q) else None) = None →
             obj_get prog now fuel (Prox id' N (Raw b)) (KStr q) s2
             = Ret (VObj p) s2).
Proof.
  intros Hreach.
  assert (Hwf : cache_wf s).
  { apply steps_grows in Hreach as [_ H]. apply H. apply map_Forall_empty. }
  assert (Hnode : ∃ id ns,
            (createReactive (VObj (Raw a)) ns1 s).1 = VObj (Prox id ns (Raw a))).
  { cbn [createReactive ident].
    destruct (proxy_cache s !! inl a) as [p|] eqn:E; [|by eexists _, _].
    destruct (Hwf _ _ E) as (id & ns & t & -> & Ht).
    destruct t; simplify_eq/=. by eexists _, _. }
  destruct Hnode as (id & ns & Hnode). exists id, ns. cbn zeta.
  split; [done|]. intros s2 Hsteps.
  assert (Hwrap : ∀ ns2, createReactive (VObj (Raw a)) ns2 s2
                         = (VObj (Prox id ns (Raw a)), s2)).
  { intros ns2. rewrite <- Hnode.
    apply createReactive_again. by apply steps_grows. }
  split; [done|]. intros fuel id' N b o q Ho Hq Hm.
  cbn [obj_get]. unfold bind at 1. rewrite Ho. cbn [is_array].
  rewrite Ho, Hm, Hq. cbn. unfold step.
  by rewrite (Hwrap (N +:+ "." +:+ q)).
Qed.

(** ** Dispatch to listeners that return or throw *)

Lemma logs_nil s : logs [] s = s.
Proof. destruct s. unfold logs. cbn. by rewrite app_nil_r. Qed.

Lemma log_logs e es s : log e (logs es s) = logs (es ++ [e]) s.
Proof. unfold log, logs. cbn. by rewrite app_assoc. Qed.

Lemma inert_call ev d f es s :
  inert prog f = true →
  match call_fn prog f d (logs es s) with
  | (None, s1) => s1
  | (Some error, s1) => log (EError ev error) s1
  end = logs (es ++ inert_effects prog ev d f) s.
Proof.
  destruct f as [id| |]; try done. cbn [inert call_fn].
  unfold inert_effects. rewrite log_logs.
  destruct (prog id) as [|[] acts]; try done.
  intros _. cbn [exec_actions]. rewrite log_logs. by rewrite <- app_assoc.
Qed.

Lemma emit_loop_inert fuel arr i ev d fs es s :
  arrays s !! arr = Some fs →
  forallb (inert prog) fs = true →
  length fs - i < fuel →
  emit_loop prog fuel arr i ev d (logs es s)
  = Some (logs (es ++ concat (inert_effects prog ev d <$> drop i fs)) s).
Proof.
  intros Harr Hin. revert i es.
  induction fuel as [|fuel IH]; intros i es Hlt; [lia|].
  cbn [emit_loop logs arrays]. rewrite Harr. cbn.
  destruct (fs !! i) as [f|] eqn:Ef.
  - assert (Hf : inert prog f = true).
    { rewrite forallb_forall in Hin. apply Hin, list_elem_of_In.
      by eapply list_elem_of_lookup_2. }
    pose proof (inert_call ev d f es s Hf) as Hc.
    change (mkState (heap s) (next_addr s) (proxy_cache s) (fields s)
              (own s) (listeners s) (arrays s) (next_id s) (ticks s)
              (trace s ++ es)) with (logs es s).
    destruct (call_fn prog f d (logs es s)) as [[e|] s1]; rewrite Hc;
      (rewrite IH by (apply lookup_lt_Some in Ef; lia));
      rewrite (drop_S _ _ _ Ef); cbn; by rewrite <- app_assoc.
  - apply lookup_ge_None in Ef. rewrite drop_ge by done. cbn.
    by rewrite app_nil_r.
Qed.


(** ** Declaring fields *)

Lemma createReactiveFields_app pre rest s :
  createReactiveFields (pre ++ rest) s
  = (run createReactiveFields pre then createReactiveFields rest) s.
Proof.
  revert s. induction pre as [|[n w] pre IH]; intros s; [reflexivity|].
  cbn [app createReactiveFields]. unfold bind, step, effect in *.
  case_decide; [reflexivity|]. destruct (createReactive w n s).
  apply IH.
Qed.

(** A declaration without collision installs every entry. *)
Lemma createReactiveFields_ok defs s :
  NoDup defs.*1 →
  (∀ n, n ∈ defs.*1 → n ∉ own s) →
  ∃ s', createReactiveFields defs s = Ret tt s'
        ∧ grows s s'
        ∧ own s' = list_to_set defs.*1 ∪ own s
        ∧ trace s' = trace s
        ∧ (∀ n, n ∉ defs.*1 → fields s' !! n = fields s !! n)
        ∧ (∀ n w, (n, w) ∈ defs →
             fields s' !! n = Some (createReactive w n s').1).
Proof.
  revert s. induction defs as [|[n w] defs IH]; intros s Hnd Hfree.
  - exists s. split_and!; [done|reflexivity| |done|done|].
    { cbn. by rewrite (left_id_L ∅ (∪)). }
    intros n w Hn. by apply elem_of_nil in Hn.
  - cbn [fmap list_fmap fst] in Hnd. apply NoDup_cons in Hnd as [Hn Hnd].
    cbn [createReactiveFields].
    rewrite decide_False by (apply Hfree, elem_of_cons; by left).
    unfold bind, step, effect.
    pose proof (createReactive_grows w n s) as Hg.
    assert (Hst : own (createReactive w n s).2 = own s
                  ∧ fields (createReactive w n s).2 = fields s
                  ∧ trace (createReactive w n s).2 = trace s).
    { destruct w; try done. cbn [createReactive].
      by destruct (proxy_cache s !! ident r). }
    destruct (createReactive w n s) as [x s1] eqn:Ec. cbn [snd] in *.
    destruct Hst as (Hown & Hfld & Htr).
    set (s2 := set_own _ _).
    destruct (IH s2) as (s' & E & Hg' & Ho & Ht & Hother & Hin); [done| |].
    { intros m Hm. subst s2. cbn. rewrite Hown.
      apply not_elem_of_union. split.
      - apply not_elem_of_singleton. by intros ->.
      - apply Hfree, elem_of_cons. by right. }
    exists s'. split; [done|]. split.
    { etrans; [exact Hg|]. etrans; [|exact Hg']. by apply grows_same. }
    split.
    { rewrite Ho. subst s2. cbn [set_own own fmap list_fmap fst].
      rewrite Hown. apply set_eq. intros y.
      rewrite !elem_of_union, !elem_of_list_to_set, elem_of_cons,
        elem_of_singleton.
      tauto. }
    split. { rewrite Ht. subst s2. cbn. done. }
    split.
    + intros m Hm. cbn [fmap list_fmap fst] in Hm.
      rewrite Hother by (intros ?; apply Hm, elem_of_cons; by right).
      subst s2. cbn.
      rewrite lookup_insert_ne by (intros ->; apply Hm, elem_of_cons; by left).
      by rewrite Hfld.
    + intros m v [[= -> ->]|Hmv]%elem_of_cons; [|by apply Hin].
      rewrite Hother by done. subst s2. cbn. rewrite lookup_insert_eq.
      f_equal.
      assert (Hag : grows (createReactive w n s).2 s').
      { rewrite Ec. cbn. etrans; [|exact Hg']. by apply grows_same. }
      rewrite (createReactive_again w n n s s' Hag). by rewrite Ec.
Qed.

(** C10. [createReactiveFields] walks its entries in order.  When the
    entries [pre] install without collision and the next name is already
    an own property of the host (from before the call, or declared by
    one of [pre]), the call throws the [TypeError] there: the state is
    exactly the one reached by declaring [pre] alone, so the earlier
    fields stay installed, each holding the reactive node of its initial
    value behind its accessor, and the entries after the colliding one
    leave no mark. *)
Theorem createReactiveFields_partial pre name v post s :
  NoDup pre.*1 →
  (∀ n, n ∈ pre.*1 → n ∉ own s) →
  name ∈ own s ∨ name ∈ pre.*1 →
  ∃ s', createReactiveFields (pre ++ (name, v) :: post) s
        = Exc (TypeError ("Field '" +:+ name +:+ "' already exists")) s'
        ∧ createReactiveFields pre s = Ret tt s'
        ∧ own s' = list_to_set pre.*1 ∪ own s
        ∧ (∀ n w, (n, w) ∈ pre →
             n ∈ own s'
             ∧ field_get n s' = (createReactive w n s').1
             ∧ ∀ fuel x, host_set prog now fuel n x s'
                         = field_set prog now fuel n x s')
        ∧ (∀ n, n ∉ pre.*1 → fields s' !! n = fields s !! n).
Proof.
  intros Hnd Hfree Hcol.
  destruct (createReactiveFields_ok pre s Hnd Hfree)
    as (s' & E & _ & Ho & _ & Hother & Hin).
  exists s'. rewrite createReactiveFields_app. unfold bind. rewrite E.
  cbn [createReactiveFields].
  rewrite decide_True
    by (rewrite Ho; apply elem_of_union; destruct Hcol;
        [right|left; apply elem_of_list_to_set]; done).
  split_and!; try done.
  intros n w Hnw. pose proof (Hin n w Hnw) as Hf. split_and!.
  - rewrite Ho. apply elem_of_union_l, elem_of_list_to_set.
    apply list_elem_of_fmap. by exists (n, w).
  - unfold field_get. by rewrite Hf.
  - intros fuel x. unfold host_set. by rewrite Hf.
Qed.

(** ** What does not take part in the event contract *)

Lemma run_ops_steps fuel ops s s' :
  run_ops prog now fuel ops s = Some s' → steps prog now s s'.
Proof.
  revert s. induction ops as [|op ops IH]; intros s; cbn [run_ops].
  - intros [= <-]. apply steps_done.
  - destruct (after (run_op prog now fuel op s)) as [s1|] eqn:E; [|done].
    cbn. intros H. eapply steps_op; [exact E|by apply IH].
Qed.

(** Deleting through a node reaches the raw target and leaves no trace. *)
Lemma obj_delete_silent r k s :
  match obj_delete r k s with
  | Ret _ s' => trace s' = trace s ∧ ticks s' = ticks s
  | Exc _ _ | OutOfFuel => False
  | Unmodelled => True
  end.
Proof.
  induction r as [a|id N obj IH]; cbn [obj_delete]; [|done].
  destruct (heap s !! a); [|done]. by destruct (raw_delete r k).
Qed.

(** A symbol-keyed write through a node always ends in a [TypeError]:
    the event name cannot be built. *)
Lemma symbol_set_throws fuel id N a o n v s :
  heap s !! a = Some o →
  ∃ s', obj_set prog now fuel (Prox id N (Raw a)) (KSym n) v s
        = Exc (TypeError "Cannot convert a Symbol value to a string") s'
        ∧ trace s' = trace s.
Proof.
  intros Ho. cbn [obj_set obj_get]. unfold bind at 1. rewrite Ho.
  destruct (holds_object (raw_get o (KSym n))); unfold bind, lift, ret;
    cbn [key_to_string]; [by eexists|].
  rewrite Ho.
  assert (Hset : ∃ o', raw_set o (KSym n) v = Ok o')
    by (destruct o; by eexists).
  destruct Hset as [o' ->]. by eexists.
Qed.

(** A symbol-keyed read of a property holding an object throws as well. *)
Lemma symbol_get_object_throws fuel id N a o n s :
  heap s !! a = Some o →
  is_object (raw_get o (KSym n)) = true →
  obj_get prog now fuel (Prox id N (Raw a)) (KSym n) s
  = Exc (TypeError "Cannot convert a Symbol value to a string") s.
Proof.
  intros Ho Hv. cbn [obj_get]. unfold bind at 1. rewrite Ho.
  cbn [is_array is_mutator]. rewrite Hv.
  by destruct (match heap s !! a with Some _ => _ | None => _ end).
Qed.

(** Replacing an object through a node warns exactly once. *)
Lemma reassignment_warns fuel id N a o o' p v s :
  heap s !! a = Some o →
  raw_set o (KStr p) v = Ok o' →
  holds_object (raw_get o (KStr p)) = true →
  let result := obj_set prog now fuel (Prox id N (Raw a)) (KStr p) v s in
  result = OutOfFuel
  ∨ ∃ s', result = Ret true s'
          ∧ warned (trace s') = warned (trace s)
              ++ [reassign_warning (type_name (raw_get o (KStr p)) s) p].
Proof.
  intros Ho Hset Hold result. subst result.
  rewrite (obj_set_node fuel id N a o o' p v s Ho Hset). rewrite Hold.
  set (s1 := set_heap _ _ _).
  destruct (emit_twice_outcome fuel (N +:+ ":" +:+ p +:+ ":change")
              (N +:+ ":change") (PChange p (raw_get o (KStr p)) v) true s1)
    as [->|(s' & -> & _ & _ & _ & Hw)]; [by left|].
  right. exists s'. split; [done|]. rewrite Hw. subst s1. cbn.
  by rewrite warned_snoc.
Qed.

End Properties.

(* ================================================================= *)
(** * The properties on concrete runs *)



(** The same write, run: only the listener on [a.b:c:change] is called. *)
Example nested_write_calls :
  (λ s, called (trace s))
    <$> run_demo (nested_setup ++ [OpSet ab_node (KStr "c") (VNum 2)])
  = Some [CUser 0].
Proof. vm_compute. reflexivity. Qed.



(** [ctx.state._x] and a symbol-keyed read: the raw value, no event. *)
Example unobservable_reads :
  obj_get demo_prog demo_now 5 state_node (KStr "_x")
    (state_after counter_setup)
  = Ret VUndef (state_after counter_setup)
  ∧ obj_get demo_prog demo_now 5 state_node (KSym 0)
      (state_after counter_setup)
    = Ret VUndef (state_after counter_setup).
Proof. split; vm_compute; reflexivity. Qed.


(** The two pushes of the specification's scenario: lengths 1 then 2. *)
Example two_pushes :
  (λ s, emitted (trace s))
    <$> run_demo (items_setup
                    ++ [ OpCall (VMut "items" (Raw 0) "push") [VStr "a"];
                         OpCall (VMut "items" (Raw 0) "push") [VStr "b"] ])
  = Some [ ("items:change",
            PMutation "push" [VStr "a"] (VNum 1) 1700000000000);
           ("items:change",
            PMutation "push" [VStr "b"] (VNum 2) 1700000000001) ].
Proof. vm_compute. reflexivity. Qed.

(** Remark.  The statements above are about nodes over raw objects, the
    reactive nodes of the specification.  [#createReactive] also accepts
    a node as its target: the cache is keyed by identity, and a proxy is
    not the object it wraps.  After [ctx.b = ctx.a] the field [b] holds a
    node over the node [ctx.a], and a write through it runs the traps of
    both. *)
Example node_over_node :
  (λ s, (fields s !! "b", fst <$> emitted (trace s)))
    <$> run_demo [ OpAlloc (OPlain [(KStr "x", VNum 0)]);
                   OpCreateFields [("a", VObj (Raw 0)); ("b", VNull)];
                   OpHostSet "b" (VObj (Prox 0 "a" (Raw 0)));
                   OpSet (Prox 1 "b" (Prox 0 "a" (Raw 0))) (KStr "x") (VNum 1) ]
  = Some (Some (VObj (Prox 1 "b" (Prox 0 "a" (Raw 0)))),
          [ "b:change";
            "a:x:read"; "a:read"; "a:x:change"; "a:change";
            "b:x:change"; "b:change" ]).
Proof. vm_compute. reflexivity. Qed.

(** Wrapping the raw object behind [ctx.a.b] again, under any namespace
    and after any further client activity, returns the node [ctx.a.b]. *)
Lemma node_identity_stable_witness :
  let s := state_after nested_setup in
  steps demo_prog demo_now initial s
  ∧ (createReactive (VObj (Raw 0)) "elsewhere" s).1 = VObj ab_node
  ∧ ∀ s2, steps demo_prog demo_now s s2 →
      (∀ ns2, createReactive (VObj (Raw 0)) ns2 s2 = (VObj ab_node, s2))
      ∧ (∀ fuel o,
           heap s2 !! 1 = Some o →
           raw_get o (KStr "b") = VObj (Raw 0) →
           (if raw_is_array o then is_mutator (KStr "b") else None) = None →
           obj_get demo_prog demo_now fuel (Prox 0 "a" (Raw 1)) (KStr "b") s2
           = Ret (VObj ab_node) s2).
Proof.
  cbn zeta.
  assert (Hreach : steps demo_prog demo_now initial (state_after nested_setup)).
  { apply (run_ops_steps demo_prog demo_now 5 nested_setup).
    vm_compute. reflexivity. }
  split; [exact Hreach|].
  destruct (node_identity_stable demo_prog demo_now
              (state_after nested_setup) 0 "elsewhere" Hreach)
    as (id & ns & Hfst & Hlater).
  assert (Hs1 : (createReactive (VObj (Raw 0)) "elsewhere"
                   (state_after nested_setup)).2
                = state_after nested_setup) by (vm_compute; reflexivity).
  assert (Hp : VObj (Prox id ns (Raw 0)) = VObj ab_node).
  { rewrite <- Hfst. vm_compute. reflexivity. }
  rewrite Hs1 in Hlater. rewrite Hp in Hlater.
  split; [vm_compute; reflexivity|].
  intros s2 Hsteps. destruct (Hlater s2 Hsteps) as [Hwrap Hread].
  split; [exact Hwrap|]. intros fuel o. apply Hread.
Defined.


(** The write of the previous run, as the client sees it: both listeners
    were called and the error was reported in between. *)
Example throwing_listener_run :
  (λ s, (called (trace s), heap s !! 0))
    <$> run_demo (counter_setup
                    ++ [ OpOn "state:change" (CUser 1);
                         OpOn "state:change" (CUser 0);
                         write_count 5 ])
  = Some ([CUser 1; CUser 0], Some (OPlain [(KStr "count", VNum 5)])).
Proof. vm_compute. reflexivity. Qed.

(** [createReactiveFields({x: 1})], then
    [createReactiveFields({a: 1, x: 2, b: 3})]: the second call throws at
    [x], with [a] installed and [b] untouched. *)
Lemma createReactiveFields_partial_witness :
  let s := state_after [OpCreateFields [("x", VNum 1)]] in
  "x" ∈ own s
  ∧ ∃ s', createReactiveFields [("a", VNum 1); ("x", VNum 2); ("b", VNum 3)] s
          = Exc (TypeError "Field 'x' already exists") s'
          ∧ createReactiveFields [("a", VNum 1)] s = Ret tt s'
          ∧ "a" ∈ own s'
          ∧ field_get "a" s' = VNum 1
          ∧ fields s' !! "x" = Some (VNum 1)
          ∧ fields s' !! "b" = None.
Proof.
  cbn zeta.
  assert (Hx : "x" ∈ own (state_after [OpCreateFields [("x", VNum 1)]]))
    by (apply (bool_decide_unpack _); vm_compute; exact I).
  split; [exact Hx|].
  destruct (createReactiveFields_partial demo_prog demo_now
              [("a", VNum 1)] "x" (VNum 2) [("b", VNum 3)]
              (state_after [OpCreateFields [("x", VNum 1)]]))
    as (s' & E & Epre & _ & Hin & Hother).
  - apply NoDup_singleton.
  - intros n ->%list_elem_of_singleton.
    apply (bool_decide_unpack _). vm_compute. exact I.
  - left. exact Hx.
  - exists s'. split; [exact E|]. split; [exact Epre|].
    destruct (Hin "a" (VNum 1)) as (Ha & Hget & _);
      [apply list_elem_of_singleton; reflexivity|].
    split; [exact Ha|]. split; [exact Hget|].
    rewrite !Hother by (apply (bool_decide_unpack _); vm_compute; exact I).
    split; vm_compute; reflexivity.
Defined.

(* ================================================================= *)
(** * Where the class departs from its contract *)

(** C6. [#emit] iterates the live listener array.
    - [once('state:change', f0)] followed by [on('state:change', f5)]:
      the first write calls the wrapper and [f0]; the wrapper then splices
      itself out, and [f5], registered when dispatch began, is not
      called.
    - A listener that unsubscribes itself hides the next listener in the
      same way.
    - A listener subscribed during dispatch is called by that very
      emission. *)
Theorem dispatch_follows_live_listener_array :
  (λ s, (called (trace s), listeners_of "state:change" s))
    <$> run_demo (counter_setup
                    ++ [ OpOnce "state:change" (CUser 0);
                         OpOn "state:change" (CUser 5);
                         write_count 1 ])
  = Some ([COnce 1 "state:change" (CUser 0); CUser 0], Some [CUser 5])
  ∧ (λ s, (called (trace s), listeners_of "state:change" s))
      <$> run_demo (counter_setup
                      ++ [ OpOn "state:change" (CUser 2);
                           OpOn "state:change" (CUser 0);
                           write_count 1 ])
    = Some ([CUser 2], Some [CUser 0])
  ∧ (λ s, (called (trace s), listeners_of "state:change" s))
      <$> run_demo (counter_setup
                      ++ [ OpOn "state:change" (CUser 3);
                           write_count 1 ])
    = Some ([CUser 3; CUser 0], Some [CUser 3; CUser 0]).
Proof. repeat split; vm_compute; reflexivity. Qed.

(** C7. [once] removes its wrapper only after the callback returned.
    - With a callback that throws, the wrapper stays registered: after
      two writes the callback has run twice and is still subscribed.
    - With a callback that returns, it runs once over two writes.
    - [off] with the original callback leaves the registration in place;
      the closure returned by [once] removes it. *)
Theorem once_keeps_throwing_callback :
  (λ s, (called (trace s), getListenerCount "state:change" s))
    <$> run_demo (counter_setup
                    ++ [ OpOnce "state:change" (CUser 1);
                         write_count 1; write_count 2 ])
  = Some ([ COnce 1 "state:change" (CUser 1); CUser 1;
            COnce 1 "state:change" (CUser 1); CUser 1 ], 1)
  ∧ (λ s, (called (trace s), getListenerCount "state:change" s))
      <$> run_demo (counter_setup
                      ++ [ OpOnce "state:change" (CUser 0);
                           write_count 1; write_count 2 ])
    = Some ([COnce 1 "state:change" (CUser 0); CUser 0], 0)
  ∧ (once "state:change" (CUser 0) (state_after counter_setup)).1
    = CUnsub 3 "state:change" (COnce 1 "state:change" (CUser 0))
  ∧ listeners_of "state:change"
      <$> run_demo (counter_setup
                      ++ [ OpOnce "state:change" (CUser 0);
                           OpOff "state:change" (CUser 0) ])
    = Some (Some [COnce 1 "state:change" (CUser 0)])
  ∧ listeners_of "state:change"
      <$> run_demo (counter_setup
                      ++ [ OpOnce "state:change" (CUser 0);
                           OpUnsubscribe
                             (CUnsub 3 "state:change"
                                (COnce 1 "state:change" (CUser 0))) ])
    = Some (Some []).
Proof. repeat split; vm_compute; reflexivity. Qed.

(** C8. After [ctx.state.user = { name: 'New' }] the reassignment is
    announced by a warning, but a write through the reference to the
    former [ctx.state.user] still emits [state.user:name:change]: the
    listener subscribed to that event is called although the object now
    stored under [state.user] (at address 2) has not changed.  The same
    happens at the top level: after [ctx.items = []], a [push] through
    the former [ctx.items] emits [items:change] and calls its listener
    a second time, while the new array (at address 1) is still empty. *)
Theorem old_node_still_fires_listeners :
  (λ s, (warned (trace s), called (trace s), heap s !! 1))
    <$> run_demo reassign_setup
  = Some ([ reassign_warning "object" "user" ], [],
          Some (OPlain [(KStr "user", VObj (Raw 2))]))
  ∧ (λ s, (called (trace s), emitted (trace s), heap s !! 2, heap s !! 0))
      <$> run_demo (reassign_setup
                      ++ [ OpSet old_user_node (KStr "name") (VStr "Z") ])
    = Some ([ CUser 0 ],
            [ ("state:user:change",
               PChange "user" (VObj (Raw 0)) (VObj (Raw 2)) 1700000000000);
              ("state:change",
               PChange "user" (VObj (Raw 0)) (VObj (Raw 2)) 1700000000001);
              ("state.user:name:change",
               PChange "name" (VStr "a") (VStr "Z") 1700000000002);
              ("state.user:change",
               PChange "name" (VStr "a") (VStr "Z") 1700000000003) ],
            Some (OPlain [(KStr "name", VStr "New")]),
            Some (OPlain [(KStr "name", VStr "Z")]))
  ∧ (λ s, (warned (trace s), called (trace s), fst <$> emitted (trace s),
           field_get "items" s, heap s !! 1))
      <$> run_demo (items_setup
                      ++ [ OpAlloc (OArray [] []);
                           OpHostSet "items" (VObj (Raw 1));
                           OpCall (VMut "items" (Raw 0) "push") [VStr "x"] ])
    = Some ([ root_warning "array" "items" ],
            [ CUser 0; CUser 0 ],
            [ "items:change"; "items:change" ],
            VObj (Prox 3 "items" (Raw 1)),
            Some (OArray [] [])).
Proof. repeat split; vm_compute; reflexivity. Qed.

(** C9. A symbol-keyed write through a node stores the value on the raw
    target and then throws a [TypeError] while building the event name;
    a symbol-keyed read of a property holding an object throws too.
    Deleting, and reading a symbol-keyed primitive, pass through
    silently. *)
Theorem symbol_keyed_write_throws :
  obj_set demo_prog demo_now 5 state_node (KSym 1) (VNum 1)
    (state_after counter_setup)
  = Exc (TypeError "Cannot convert a Symbol value to a string")
      (set_heap {[ 0 := OPlain [(KStr "count", VNum 0); (KSym 1, VNum 1)] ]}
         1 (state_after counter_setup))
  ∧ obj_get demo_prog demo_now 5 (Prox 0 "state" (Raw 1)) (KSym 1)
      (state_after [ OpAlloc (OPlain []);
                     OpAlloc (OPlain [(KSym 1, VObj (Raw 0))]);
                     OpCreateFields [("state", VObj (Raw 1))] ])
    = Exc (TypeError "Cannot convert a Symbol value to a string")
        (state_after [ OpAlloc (OPlain []);
                       OpAlloc (OPlain [(KSym 1, VObj (Raw 0))]);
                       OpCreateFields [("state", VObj (Raw 1))] ])
  ∧ obj_delete state_node (KStr "count") (state_after counter_setup)
    = Ret true (set_heap {[ 0 := OPlain [] ]} 1 (state_after counter_setup))
  ∧ obj_get demo_prog demo_now 5 state_node (KSym 1)
      (state_after counter_setup)
    = Ret VUndef (state_after counter_setup).
Proof. repeat split; vm_compute; reflexivity. Qed.

(* ================================================================= *)
(** * Further properties of the class *)

Section Preserving.

(** Operations relate the states before and after by [R] as soon as the
    primitive state changes they are built from do. *)

Variable prog : nat → list Action.
Variable now : nat → Z.
Variable R : State → State → Prop.
Context `{!PreOrder R}.

Hypothesis R_log : ∀ e s, R s (log e s).
Hypothesis R_tick : ∀ s, R s (tick s).
Hypothesis R_create : ∀ v ns s, R s (createReactive v ns s).2.
Hypothesis R_call : ∀ f d s, R s (call_fn prog f d s).2.
Hypothesis R_heap : ∀ h n s, R s (set_heap h n s).
Hypothesis R_fields : ∀ f s, R s (set_fields f s).
Hypothesis R_own : ∀ o s, R s (set_own o s).

Lemma gen_ret {A} (a : A) : preserves R (ret a).
Proof. intros s. unfold ret. reflexivity. Qed.

Lemma gen_bind {A B} (m : State → Outcome A) (f : A → State → Outcome B) :
  preserves R m → (∀ a, preserves R (f a)) → preserves R (bind m f).
Proof.
  intros Hm Hf s. unfold bind. specialize (Hm s).
  destruct (m s) as [a s1|e s1| |]; try done.
  specialize (Hf a s1). destruct (f a s1); try done; by etrans.
Qed.

Lemma gen_lift {A} (r : Res A) : preserves R (lift r).
Proof. intros s. destruct r; cbn; reflexivity || done. Qed.

Lemma gen_step {A} (f : State → A * State) :
  (∀ s, R s (f s).2) → preserves R (step f).
Proof. intros H s. unfold step. specialize (H s). by destruct (f s). Qed.

Lemma gen_effect (f : State → State) :
  (∀ s, R s (f s)) → preserves R (effect f).
Proof. intros H s. apply H. Qed.

Lemma gen_from {A} (m : State → Outcome A) s s1 :
  preserves R m → R s s1 →
  match m s1 with
  | Ret _ s' | Exc _ s' => R s s'
  | OutOfFuel | Unmodelled => True
  end.
Proof.
  intros Hm H1. specialize (Hm s1). destruct (m s1); try done; by etrans.
Qed.

Lemma gen_emit_loop fuel arr i ev d s s' :
  emit_loop prog fuel arr i ev d s = Some s' → R s s'.
Proof.
  revert i s. induction fuel as [|fuel IH]; intros i s; cbn [emit_loop];
    [done|].
  destruct (arrays s !! arr ≫= (.!! i)) as [cb|]; [|by intros [= <-]].
  intros H. apply IH in H. etrans; [|exact H].
  pose proof (R_call cb d s) as Hc.
  destruct (call_fn prog cb d s) as [[e|] s1]; cbn [snd] in Hc; [|done].
  etrans; [done|apply R_log].
Qed.

Lemma gen_emit fuel ev d : preserves R (emit prog fuel ev d).
Proof.
  intros s. unfold emit.
  destruct (listeners (log (EEmit ev d) s) !! ev) as [arr|]; [|apply R_log].
  destruct (emit_loop prog fuel arr 0 ev d (log (EEmit ev d) s)) as [s1|] eqn:E;
    [|done].
  etrans; [apply R_log|]. by eapply gen_emit_loop.
Qed.

Lemma gen_Date_now : preserves R (step (Date_now now)).
Proof. apply gen_step. intros s. apply R_tick. Qed.

Lemma gen_obj_get fuel r k : preserves R (obj_get prog now fuel r k).
Proof.
  induction r as [a|id N obj IH]; cbn [obj_get].
  - intros s. destruct (heap s !! a); [reflexivity|done].
  - apply gen_bind; [done|]. intros value s.
    destruct (if is_array obj s then is_mutator k else None);
      [reflexivity|].
    destruct (is_object value).
    + revert s. apply gen_bind; [apply gen_lift|]. intros p.
      apply gen_step. intros s. apply R_create.
    + destruct k as [p|n]; [|reflexivity].
      destruct (negb (String.prefix "_" p)); [|reflexivity].
      revert s.
      repeat first [ apply gen_Date_now | apply gen_emit | apply gen_ret
                   | apply gen_bind; [|intros ?] ].
Qed.

Lemma gen_obj_set fuel r k v : preserves R (obj_set prog now fuel r k v).
Proof.
  induction r as [a|id N obj IH]; cbn [obj_set].
  - intros s. destruct (heap s !! a); [|done].
    destruct (raw_set r k v); [apply R_heap|reflexivity|done].
  - apply gen_bind; [apply gen_obj_get|]. intros old.
    apply gen_bind.
    { destruct (holds_object old); [|apply gen_ret].
      apply gen_bind; [apply gen_lift|]. intros p s. apply R_log. }
    intros _. apply gen_bind; [done|]. intros _.
    repeat first [ apply gen_Date_now | apply gen_emit | apply gen_ret
                 | apply gen_lift | apply gen_bind; [|intros ?] ].
Qed.

Lemma gen_obj_delete r k : preserves R (obj_delete r k).
Proof.
  induction r as [a|id N obj IH]; cbn [obj_delete]; [|done].
  intros s. destruct (heap s !! a); [|done].
  destruct (raw_delete r k). apply R_heap.
Qed.

Lemma gen_call_value fuel f args :
  preserves R (call_value prog now fuel f args).
Proof.
  destruct f as [ | |b|z|str|g|N obj m|r0]; cbn [call_value];
    try (intros s; reflexivity || done).
  destruct obj as [a|]; cbn [call_mutator]; [|done].
  intros s. destruct (heap s !! a) as [[|elems props]|]; try done.
  destruct (array_proto m elems args) as [[elems' r]| |];
    [|reflexivity|done].
  destruct r as [|v|l]; cbn [alloc]; apply gen_from;
    try apply R_heap;
    try (etrans; apply R_heap);
    (apply gen_bind; [apply gen_obj_get|]; intros ?;
     repeat first [ apply gen_Date_now | apply gen_emit | apply gen_ret
                  | apply gen_bind; [|intros ?] ]).
Qed.

Lemma gen_field_set fuel name v :
  preserves R (field_set prog now fuel name v).
Proof.
  intros s. unfold field_set. apply gen_from; [|reflexivity].
  apply gen_bind.
  { case_match; [apply gen_effect; intros ?; apply R_log|apply gen_ret]. }
  intros _. apply gen_bind; [apply gen_step; intros ?; apply R_create|].
  intros w. apply gen_bind; [apply gen_effect; intros ?; apply R_fields|].
  intros _. apply gen_bind; [apply gen_Date_now|]. intros t. apply gen_emit.
Qed.

Lemma gen_createReactiveFields defs :
  preserves R (createReactiveFields defs).
Proof.
  induction defs as [|[name v] defs IH]; cbn [createReactiveFields];
    [apply gen_ret|].
  intros s. case_decide; [reflexivity|].
  apply gen_from; [|reflexivity].
  apply gen_bind; [apply gen_step; intros ?; apply R_create|]. intros w.
  apply gen_bind; [|by intros _].
  apply gen_effect. intros s0. etrans; [apply R_fields|apply R_own].
Qed.

End Preserving.

Section Further.

Variable prog : nat → list Action.
Variable now : nat → Z.

(** ** Reads leave the data alone *)

#[local] Instance same_raw_preorder : PreOrder same_raw.
Proof.
  split.
  - by intros s.
  - intros s1 s2 s3 (H1 & H2 & H3) (H4 & H5 & H6). unfold same_raw.
    by rewrite H4, H5, H6.
Qed.




(** ** Lazy wrapping *)

(** X2. Reading, through a node with namespace [N] over a raw object, a
    string key [p] that holds an object yields that object's node and
    leaves no trace: no event, no clock read, no change to the heap.
    The node is the cached one if the object was wrapped before; if not,
    it is a new node with namespace [N.p], cached from then on. *)
Theorem traversal_is_silent fuel id N a o p r s :
  heap s !! a = Some o →
  raw_get o (KStr p) = VObj r →
  (if raw_is_array o then is_mutator (KStr p) else None) = None →
  ∃ node s',
    obj_get prog now fuel (Prox id N (Raw a)) (KStr p) s = Ret (VObj node) s'
    ∧ trace s' = trace s ∧ ticks s' = ticks s ∧ heap s' = heap s
    ∧ listeners s' = listeners s ∧ arrays s' = arrays s
    ∧ proxy_cache s' !! ident r = Some node
    ∧ (∀ q, proxy_cache s !! ident r = Some q → node = q ∧ s' = s)
    ∧ (proxy_cache s !! ident r = None →
       node = Prox (next_id s) (N +:+ "." +:+ p) r).
Proof.
  intros Ho Hr Hm. cbn [obj_get]. unfold bind at 1. rewrite Ho.
  cbn [is_array]. rewrite Ho, Hm, Hr. cbn [is_object typeof].
  unfold bind, lift, step. cbn [key_to_string createReactive].
  destruct (proxy_cache s !! ident r) as [q|] eqn:E.
  - exists q, s. split_and!; try done. by intros q' [= <-].
  - eexists _, _. split; [reflexivity|]. cbn.
    split_and!; try done. apply lookup_insert_eq.
Qed.

(** ** Writes and what a later read sees *)






(** ** Deleting and symbol keys *)


(** X5. A symbol-keyed write through a node always ends in a
    [TypeError], without any event or warning.  When the key held an
    object the error comes before the store and the state is unchanged;
    otherwise the value has already been stored on the raw target. *)
Theorem symbol_write_throws fuel id N a o n v s :
  heap s !! a = Some o →
  ∃ o', raw_set o (KSym n) v = Ok o'
        ∧ obj_set prog now fuel (Prox id N (Raw a)) (KSym n) v s
          = Exc (TypeError "Cannot convert a Symbol value to a string")
              (if holds_object (raw_get o (KSym n)) then s
               else set_heap (<[a := o']> (heap s)) (next_addr s) s).
Proof.
  intros Ho.
  assert (Hset : ∃ o', raw_set o (KSym n) v = Ok o')
    by (destruct o; by eexists).
  destruct Hset as [o' Hset]. exists o'. split; [done|].
  cbn [obj_set obj_get]. unfold bind at 1. rewrite Ho.
  destruct (holds_object (raw_get o (KSym n))); unfold bind, lift, ret;
    cbn [key_to_string]; [done|].
  by rewrite Ho, Hset.
Qed.

(** ** Top-level fields *)


Lemma createReactive_frame v ns s :
  heap (createReactive v ns s).2 = heap s
  ∧ fields (createReactive v ns s).2 = fields s
  ∧ ticks (createReactive v ns s).2 = ticks s
  ∧ trace (createReactive v ns s).2 = trace s
  ∧ arrays (createReactive v ns s).2 = arrays s
  ∧ listeners (createReactive v ns s).2 = listeners s.
Proof.
  destruct v; try done. cbn [createReactive].
  by destruct (proxy_cache s !! ident r).
Qed.



#[local] Instance declaring_preorder :
  PreOrder (λ s s', heap s' = heap s ∧ listeners s' = listeners s
                    ∧ arrays s' = arrays s).
Proof.
  split.
  - by intros s.
  - intros s1 s2 s3 (H1 & H2 & H3) (H4 & H5 & H6).
    by rewrite H4, H5, H6.
Qed.

(** X7. A declaration whose names are new and distinct installs every
    entry: each name becomes an own property whose accessor returns the
    node of the initial value (the value itself for a primitive); the
    call emits nothing, touches neither the raw heap nor the listeners,
    and leaves other fields as they were. *)
Theorem declaration_installs_all defs s :
  NoDup defs.*1 →
  (∀ n, n ∈ defs.*1 → n ∉ own s) →
  ∃ s', createReactiveFields defs s = Ret tt s'
        ∧ trace s' = trace s
        ∧ heap s' = heap s
        ∧ listeners s' = listeners s
        ∧ own s' = list_to_set defs.*1 ∪ own s
        ∧ (∀ n, n ∉ defs.*1 → fields s' !! n = fields s !! n)
        ∧ (∀ n w, (n, w) ∈ defs →
             field_get n s' = (createReactive w n s').1
             ∧ (is_object w = false → field_get n s' = w)).
Proof.
  intros Hnd Hfree.
  destruct (createReactiveFields_ok defs s Hnd Hfree)
    as (s' & E & _ & Ho & Ht & Hother & Hin).
  exists s'.
  pose proof (gen_createReactiveFields
                (λ s s', heap s' = heap s ∧ listeners s' = listeners s
                         ∧ arrays s' = arrays s)
                ltac:(intros v ns s0;
                      destruct (createReactive_frame v ns s0)
                        as (? & _ & _ & _ & ? & ?); done)
                ltac:(done) ltac:(done) defs s) as Hp.
  rewrite E in Hp. destruct Hp as (Hh & Hl & _).
  split_and!; try done.
  intros n w Hnw. specialize (Hin n w Hnw). unfold field_get.
  rewrite Hin. split; [done|]. intros Hw. by destruct w.
Qed.

(** ** The listener table stays well formed *)

#[local] Instance keeps_bus_preorder : PreOrder keeps_bus.
Proof.
  split; [by intros s H|]. intros s1 s2 s3 H1 H2 H. apply H2, H1, H.
Qed.

Lemma keeps_bus_same s s' :
  listeners s' = listeners s → arrays s' = arrays s →
  next_id s ≤ next_id s' → keeps_bus s s'.
Proof.
  intros Hl Ha Hn (H1 & H2 & H3). unfold bus_wf. rewrite Hl, Ha.
  split_and!; [done|done|]. intros arr Harr. specialize (H3 arr Harr). lia.
Qed.

Lemma keeps_bus_alter g arr s :
  keeps_bus s (set_arrays (alter g arr (arrays s)) s).
Proof.
  intros (H1 & H2 & H3). unfold bus_wf. cbn. split_and!; [|done|].
  - intros e a He. apply lookup_alter_is_Some. by eapply H1.
  - intros a Ha. apply lookup_alter_is_Some in Ha. by apply H3.
Qed.

Lemma keeps_bus_new_array ev s : keeps_bus s (new_array ev s).
Proof.
  intros (H1 & H2 & H3). unfold bus_wf. cbn. split_and!.
  - intros e a. rewrite lookup_insert. case_decide.
    + intros [= <-]. by rewrite lookup_insert_eq.
    + intros He. rewrite lookup_insert. case_decide; [done|]. by eapply H1.
  - intros e1 e2 a. rewrite !lookup_insert.
    assert (Hfresh : ∀ e, listeners s !! e = Some (next_id s) → False).
    { intros e He. apply H1 in He. apply H3 in He. lia. }
    repeat case_decide; subst; try done.
    + intros [= <-] He. by destruct (Hfresh e2).
    + intros He [= <-]. by destruct (Hfresh e1).
    + apply H2.
  - intros a. rewrite lookup_insert. case_decide; [subst; lia|].
    intros Ha. specialize (H3 a Ha). lia.
Qed.

Lemma keeps_bus_off ev f s : keeps_bus s (off ev f s).
Proof.
  unfold off. destruct (listeners s !! ev); [apply keeps_bus_alter|done].
Qed.

Lemma keeps_bus_on ev f s : keeps_bus s (on ev f s).2.
Proof.
  unfold on.
  set (s1 := match listeners s !! ev with Some _ => s | None => _ end).
  assert (H1 : keeps_bus s s1).
  { subst s1. destruct (listeners s !! ev); [done|apply keeps_bus_new_array]. }
  set (s2 := match listeners s1 !! ev with Some _ => _ | None => s1 end).
  assert (H2 : keeps_bus s1 s2).
  { subst s2. destruct (listeners s1 !! ev); [apply keeps_bus_alter|done]. }
  etrans; [exact H1|]. etrans; [exact H2|].
  apply keeps_bus_same; cbn; [done|done|lia].
Qed.

Lemma keeps_bus_once ev f s : keeps_bus s (once ev f s).2.
Proof.
  change (once ev f s)
    with (on ev (COnce (next_id s) ev f) (set_next_id (S (next_id s)) s)).
  etrans; [|apply keeps_bus_on]. apply keeps_bus_same; cbn; [done|done|lia].
Qed.

Lemma keeps_bus_removeAll ev s : keeps_bus s (removeAllListeners ev s).
Proof.
  assert (Hclear : keeps_bus s (set_listeners ∅ s)).
  { intros (H1 & H2 & H3). unfold bus_wf. cbn. split_and!; [| |done];
      intros *; by rewrite lookup_empty. }
  destruct ev as [ev|]; cbn [removeAllListeners]; [|done].
  case_decide; [done|apply keeps_bus_new_array].
Qed.

Lemma keeps_bus_exec acts s : keeps_bus s (exec_actions acts s).2.
Proof.
  revert s. induction acts as [|a acts IH]; intros s; [done|].
  destruct a; cbn [exec_actions]; try done;
    (etrans; [|apply IH]);
    auto using keeps_bus_on, keeps_bus_off, keeps_bus_once,
      keeps_bus_removeAll.
Qed.

Lemma keeps_bus_log e s : keeps_bus s (log e s).
Proof. by apply keeps_bus_same. Qed.

Lemma keeps_bus_call f d s : keeps_bus s (call_fn prog f d s).2.
Proof.
  revert s. induction f as [id|w ev cb IH|u ev cb IH]; intros s;
    cbn [call_fn].
  - etrans; [apply keeps_bus_log|apply keeps_bus_exec].
  - specialize (IH (log (ECall (COnce w ev cb) d) s)).
    destruct (call_fn prog cb d (log (ECall (COnce w ev cb) d) s))
      as [[e|] s1]; cbn [snd] in *.
    + etrans; [apply keeps_bus_log|done].
    + etrans; [apply keeps_bus_log|]. etrans; [done|apply keeps_bus_off].
  - etrans; [apply keeps_bus_log|apply keeps_bus_off].
Qed.

Lemma keeps_bus_create v ns s : keeps_bus s (createReactive v ns s).2.
Proof.
  destruct v; try done. cbn [createReactive].
  destruct (proxy_cache s !! ident r); [done|].
  apply keeps_bus_same; cbn; [done|done|lia].
Qed.

Lemma keeps_bus_run_op fuel op : preserves keeps_bus (run_op prog now fuel op).
Proof.
  assert (HL : ∀ e s, keeps_bus s (log e s)) by apply keeps_bus_log.
  assert (HT : ∀ s, keeps_bus s (tick s))
    by (intros; by apply keeps_bus_same).
  assert (HH : ∀ h n s, keeps_bus s (set_heap h n s))
    by (intros; by apply keeps_bus_same).
  assert (HF : ∀ f s, keeps_bus s (set_fields f s))
    by (intros; by apply keeps_bus_same).
  assert (HO : ∀ o s, keeps_bus s (set_own o s))
    by (intros; by apply keeps_bus_same).
  assert (Hd : ∀ A (m : State → Outcome A),
            preserves keeps_bus m → preserves keeps_bus (discard m)).
  { intros A m Hm.
    exact (gen_bind keeps_bus m _ Hm (λ _, gen_ret keeps_bus tt)). }
  destruct op; cbn [run_op].
  - apply Hd. apply (gen_step keeps_bus). intros s. apply HH.
  - exact (gen_createReactiveFields keeps_bus keeps_bus_create HF HO _).
  - unfold host_set. intros s. destruct (fields s !! name).
    + exact (gen_field_set prog now keeps_bus HL HT keeps_bus_create
               keeps_bus_call HF fuel name v s).
    + by apply keeps_bus_same.
  - apply Hd.
    exact (gen_obj_get prog now keeps_bus HL HT keeps_bus_create
             keeps_bus_call fuel r k).
  - apply Hd.
    exact (gen_obj_set prog now keeps_bus HL HT keeps_bus_create
             keeps_bus_call HH fuel r k v).
  - apply Hd. exact (gen_obj_delete keeps_bus HH r k).
  - apply Hd.
    exact (gen_call_value prog now keeps_bus HL HT keeps_bus_create
             keeps_bus_call HH fuel f args).
  - apply Hd. exact (gen_step keeps_bus _ (keeps_bus_on event f)).
  - exact (gen_effect keeps_bus _ (keeps_bus_off event f)).
  - apply Hd. exact (gen_step keeps_bus _ (keeps_bus_once event f)).
  - exact (gen_effect keeps_bus _ (keeps_bus_removeAll event)).
  - apply (gen_effect keeps_bus). intros s. destruct f; try done.
    apply keeps_bus_off.
Qed.

Lemma reachable_bus_wf s : steps prog now initial s → bus_wf s.
Proof.
  assert (Hsteps : ∀ s1 s2, steps prog now s1 s2 → keeps_bus s1 s2).
  { induction 1 as [s0|fuel op s0 s1 s2 Hop _ IH]; [done|].
    etrans; [|exact IH]. pose proof (keeps_bus_run_op fuel op s0) as H.
    destruct (run_op prog now fuel op s0); by simplify_eq/=. }
  intros H. apply (Hsteps _ _ H). unfold bus_wf. cbn.
  split_and!; intros *; by rewrite lookup_empty.
Qed.

(** ** Subscribing and unsubscribing *)

Lemma listeners_of_Some e l s :
  listeners_of e s = Some l →
  ∃ arr, listeners s !! e = Some arr ∧ arrays s !! arr = Some l.
Proof.
  unfold listeners_of. destruct (listeners s !! e) as [arr|]; [|done].
  cbn. intros H. by exists arr.
Qed.

Lemma on_registered e f arr l s :
  listeners s !! e = Some arr → arrays s !! arr = Some l →
  listeners (on e f s).2 !! e = Some arr
  ∧ arrays (on e f s).2 !! arr = Some (l ++ [f]).
Proof.
  intros Hl Ha. unfold on. rewrite Hl, Hl. cbn.
  split; [done|]. by rewrite lookup_alter_eq, Ha.
Qed.

Lemma on_unregistered e f s :
  listeners s !! e = None →
  listeners (on e f s).2 !! e = Some (next_id s)
  ∧ arrays (on e f s).2 !! next_id s = Some [f].
Proof.
  intros Hl. unfold on. rewrite Hl. cbn. rewrite lookup_insert_eq. cbn.
  split; [apply lookup_insert_eq|].
  by rewrite lookup_alter_eq, lookup_insert_eq.
Qed.

Lemma on_closure e f s : ∃ u, (on e f s).1 = CUnsub u e f.
Proof. unfold on. by eexists. Qed.

Lemma off_registered e f arr l s :
  listeners s !! e = Some arr → arrays s !! arr = Some l →
  listeners_of e (off e f s) = Some (remove_first f l).
Proof.
  intros Hl Ha. unfold off, listeners_of. rewrite Hl. cbn. rewrite Hl. cbn.
  by rewrite lookup_alter_eq, Ha.
Qed.

Lemma remove_first_absent f l : f ∉ l → remove_first f l = l.
Proof.
  induction l as [|g l IH]; [done|]. intros Hf. cbn.
  rewrite decide_False by (intros ->; apply Hf; by left).
  f_equal. apply IH. intros ?. apply Hf. by right.
Qed.

Lemma remove_first_app f l l2 :
  f ∈ l → remove_first f (l ++ l2) = remove_first f l ++ l2.
Proof.
  induction l as [|g l IH]; [by intros ?%elem_of_nil|].
  intros Hf. cbn. case_decide; [done|].
  cbn. f_equal. apply IH. apply elem_of_cons in Hf as [->|]; done.
Qed.

Lemma remove_first_app_absent f l : f ∉ l → remove_first f (l ++ [f]) = l.
Proof.
  induction l as [|g l IH]; cbn; [by rewrite decide_True|]. intros Hf.
  rewrite decide_False by (intros ->; apply Hf; by left).
  f_equal. apply IH. intros ?. apply Hf. by right.
Qed.

(** X8. [on(event, callback)] appends the callback to the listeners of
    the event.  Calling the returned function removes the first
    registration of that callback: when the callback was not registered
    before, the listeners are exactly as they were; when it was, the
    earlier registration goes and the new one stays at the end. *)
Theorem on_then_unsubscribe e f l s :
  listeners_of e s = Some l →
  let s1 := (on e f s).2 in
  let s2 := unsubscribe (on e f s).1 s1 in
  listeners_of e s1 = Some (l ++ [f])
  ∧ getListenerCount e s1 = S (length l)
  ∧ (f ∉ l → listeners_of e s2 = Some l)
  ∧ (f ∈ l → listeners_of e s2 = Some (remove_first f l ++ [f])).
Proof.
  intros (arr & Hl & Ha)%listeners_of_Some s1 s2.
  destruct (on_registered e f arr l s Hl Ha) as [Hl1 Ha1].
  assert (H1 : listeners_of e s1 = Some (l ++ [f])).
  { unfold listeners_of. subst s1. rewrite Hl1. cbn. exact Ha1. }
  assert (H2 : listeners_of e s2 = Some (remove_first f (l ++ [f]))).
  { subst s2. destruct (on_closure e f s) as [u ->]. cbn [unsubscribe].
    by apply (off_registered e f arr). }
  split; [done|]. split.
  { unfold getListenerCount. rewrite H1, length_app. cbn. lia. }
  split; intros Hf; rewrite H2; f_equal.
  - by apply remove_first_app_absent.
  - by apply remove_first_app.
Qed.

(** X9. [off] for an event that has no entry, or with a callback that is
    not among the listeners of the event, changes nothing at all. *)
Theorem off_unregistered_is_noop e f s :
  (∀ l, listeners_of e s = Some l → f ∉ l) →
  off e f s = s.
Proof.
  intros H. unfold off. destruct (listeners s !! e) as [arr|] eqn:Hl; [|done].
  assert (Ha : alter (remove_first f) arr (arrays s) = arrays s).
  { apply alter_id. intros l Harr. apply remove_first_absent, H.
    unfold listeners_of. rewrite Hl. cbn. exact Harr. }
  rewrite Ha. by destruct s.
Qed.

(** X10. Removing the last listener does not remove the event: after
    subscribing to an event that had no entry and unsubscribing again,
    the event is listed by [getRegisteredEvents] although it has no
    listener. *)
Theorem emptied_event_stays_registered e f s :
  listeners s !! e = None →
  let s2 := unsubscribe (on e f s).1 (on e f s).2 in
  (e ∉ getRegisteredEvents s)
  ∧ (e ∈ getRegisteredEvents s2)
  ∧ listeners_of e s2 = Some []
  ∧ getListenerCount e s2 = 0
  ∧ hasListeners e s2 = false.
Proof.
  intros Hl s2. destruct (on_unregistered e f s Hl) as [Hl1 Ha1].
  assert (H2 : listeners_of e s2 = Some []).
  { subst s2. destruct (on_closure e f s) as [u ->]. cbn [unsubscribe].
    rewrite (off_registered e f (next_id s) [f] _ Hl1 Ha1). cbn.
    by rewrite decide_True. }
  split; [by apply not_elem_of_dom|]. split.
  - unfold getRegisteredEvents. apply elem_of_dom.
    unfold listeners_of in H2. destruct (listeners s2 !! e); [done|].
    discriminate H2.
  - split; [done|]. unfold hasListeners, getListenerCount. rewrite H2.
    split; [done|]. apply bool_decide_eq_false_2. cbn. lia.
Qed.

Lemma other_event_alter g arr e e' s :
  bus_wf s → listeners s !! e = Some arr → e ≠ e' →
  listeners_of e' (set_arrays (alter g arr (arrays s)) s) = listeners_of e' s.
Proof.
  intros (_ & Hinj & _) He Hne. unfold listeners_of. cbn.
  destruct (listeners s !! e') as [arr'|] eqn:He'; [|done]. cbn.
  apply lookup_alter_ne. intros <-. apply Hne. by eapply Hinj.
Qed.

Lemma other_event_new_array e e' s :
  bus_wf s → e ≠ e' →
  listeners_of e' (new_array e s) = listeners_of e' s.
Proof.
  intros (Hdom & _ & Hlt) Hne. unfold listeners_of, new_array. cbn.
  rewrite lookup_insert_ne by done.
  destruct (listeners s !! e') as [arr'|] eqn:He'; [|done]. cbn.
  apply lookup_insert_ne. intros <-.
  specialize (Hlt _ (Hdom _ _ He')). lia.
Qed.

Lemma other_event_off e e' f s :
  bus_wf s → e ≠ e' → listeners_of e' (off e f s) = listeners_of e' s.
Proof.
  intros Hwf Hne. unfold off.
  destruct (listeners s !! e) as [arr|] eqn:He; [|done].
  by apply (other_event_alter _ arr e).
Qed.

Lemma other_event_on e e' f s :
  bus_wf s → e ≠ e' → listeners_of e' (on e f s).2 = listeners_of e' s.
Proof.
  intros Hwf Hne. unfold on.
  destruct (listeners s !! e) as [arr|] eqn:He.
  - rewrite He. cbn. change (listeners_of e' (set_next_id ?n ?t))
      with (listeners_of e' t). by apply (other_event_alter _ arr e).
  - assert (Hn : listeners (new_array e s) !! e = Some (next_id s))
      by apply lookup_insert_eq.
    rewrite Hn. cbn -[new_array].
    change (listeners_of e' (set_next_id ?n ?t)) with (listeners_of e' t).
    rewrite (other_event_alter _ (next_id s) e); [|by apply keeps_bus_new_array|done|done].
    by apply other_event_new_array.
Qed.

(** X11. Subscriptions are kept per event.  In every state the class can
    reach, [on], [off], [once] and [removeAllListeners(event)] for one
    event leave the listeners of every other event as they were. *)
Theorem subscriptions_are_per_event e e' f s :
  steps prog now initial s → e ≠ e' →
  listeners_of e' (on e f s).2 = listeners_of e' s
  ∧ listeners_of e' (off e f s) = listeners_of e' s
  ∧ listeners_of e' (once e f s).2 = listeners_of e' s
  ∧ (e ≠ "" →
     listeners_of e' (removeAllListeners (Some e) s) = listeners_of e' s).
Proof.
  intros Hwf%reachable_bus_wf Hne. split_and!.
  - by apply other_event_on.
  - by apply other_event_off.
  - change (once e f s).2
      with (on e (COnce (next_id s) e f) (set_next_id (S (next_id s)) s)).2.
    rewrite other_event_on; [done| |done].
    destruct Hwf as (H1 & H2 & H3). unfold bus_wf. cbn. split_and!; [done..|].
    intros arr Harr. specialize (H3 _ Harr). lia.
  - intros He. cbn [removeAllListeners]. rewrite decide_False by done.
    by apply other_event_new_array.
Qed.

(** X12. [removeAllListeners(event)] leaves the event registered with no
    listener; without an argument, with [null] or with the empty string
    it forgets every event. *)
Theorem removeAllListeners_clears e s :
  e ≠ "" →
  let s1 := removeAllListeners (Some e) s in
  (e ∈ getRegisteredEvents s1)
  ∧ listeners_of e s1 = Some []
  ∧ hasListeners e s1 = false
  ∧ getRegisteredEvents (removeAllListeners None s) = ∅
  ∧ getRegisteredEvents (removeAllListeners (Some "") s) = ∅
  ∧ ∀ e', hasListeners e' (removeAllListeners None s) = false.
Proof.
  intros He s1. subst s1. cbn [removeAllListeners].
  rewrite decide_False by done.
  assert (H : listeners_of e (new_array e s) = Some []).
  { unfold listeners_of, new_array. cbn. rewrite lookup_insert_eq. cbn.
    apply lookup_insert_eq. }
  split_and!.
  - unfold getRegisteredEvents, new_array. cbn. apply elem_of_dom.
    by rewrite lookup_insert_eq.
  - done.
  - unfold hasListeners, getListenerCount. rewrite H.
    apply bool_decide_eq_false_2. cbn. lia.
  - unfold getRegisteredEvents. cbn. apply dom_empty_L.
  - unfold getRegisteredEvents. cbn. apply dom_empty_L.
  - intros e'. unfold hasListeners, getListenerCount, listeners_of. cbn.
    rewrite lookup_empty. cbn. apply bool_decide_eq_false_2. lia.
Qed.

(** ** Listeners that change the subscriptions during a dispatch *)

Lemma called_snoc t e : called (t ++ [e]) = called t ++ called [e].
Proof. apply omap_app. Qed.

Lemma removeAll_array o arr s :
  arr < next_id s →
  arrays (removeAllListeners o s) !! arr = arrays s !! arr
  ∧ next_id s ≤ next_id (removeAllListeners o s).
Proof.
  intros Hlt.
  assert (Hnew : ∀ e, arrays (new_array e s) !! arr = arrays s !! arr
                      ∧ next_id s ≤ next_id (new_array e s)).
  { intros e. unfold new_array. cbn. split; [|lia].
    apply lookup_insert_ne. lia. }
  destruct o as [e|]; cbn [removeAllListeners]; [|done].
  case_decide; [done|apply Hnew].
Qed.

Lemma removeAll_listening ev o s :
  listening ev s = [] → listening ev (removeAllListeners o s) = [].
Proof.
  intros H.
  assert (Hclear : listening ev (set_listeners ∅ s) = []).
  { unfold listening, listeners_of. cbn. by rewrite lookup_empty. }
  destruct o as [e|]; cbn [removeAllListeners]; [|done].
  case_decide; [done|].
  unfold listening, listeners_of, new_array in *. cbn.
  destruct (decide (e = ev)) as [->|Hne].
  - rewrite lookup_insert_eq. cbn. by rewrite lookup_insert_eq.
  - rewrite lookup_insert_ne by done.
    destruct (listeners s !! ev) as [arr'|]; [|done]. cbn in *.
    rewrite lookup_insert. by case_decide.
Qed.

Lemma removeAll_cleared ev o s :
  o = None ∨ o = Some ev → listening ev (removeAllListeners o s) = [].
Proof.
  assert (Hclear : listening ev (set_listeners ∅ s) = []).
  { unfold listening, listeners_of. cbn. by rewrite lookup_empty. }
  intros [->| ->]; cbn [removeAllListeners]; [done|].
  case_decide; [done|].
  unfold listening, listeners_of, new_array. cbn.
  rewrite lookup_insert_eq. cbn. by rewrite lookup_insert_eq.
Qed.

Lemma clearing_exec acts arr ev s :
  forallb (λ a, match a with
                | ARemoveAll _ | AThrow _ => true
                | _ => false
                end) acts = true →
  arr < next_id s →
  arrays (exec_actions acts s).2 !! arr = arrays s !! arr
  ∧ next_id s ≤ next_id (exec_actions acts s).2
  ∧ (listening ev s = [] → listening ev (exec_actions acts s).2 = []).
Proof.
  revert s. induction acts as [|a acts IH]; intros s Hall Hlt; [done|].
  destruct a; try done. cbn [exec_actions forallb andb] in *.
  destruct (removeAll_array event arr s Hlt) as [Ha Hn].
  destruct (IH (removeAllListeners event s) Hall ltac:(lia)) as (-> & ? & Hl).
  split_and!; [done|lia|]. intros Hev. by apply Hl, removeAll_listening.
Qed.

Lemma clearing_call f arr ev d s :
  clearing prog f = true → arr < next_id s →
  let s1 := match call_fn prog f d s with
            | (None, s1) => s1
            | (Some error, s1) => log (EError ev error) s1
            end in
  arrays s1 !! arr = arrays s !! arr
  ∧ next_id s ≤ next_id s1
  ∧ called (trace s1) = called (trace s) ++ [f]
  ∧ (listening ev s = [] → listening ev s1 = [])
  ∧ (∀ id o acts, f = CUser id → prog id = ARemoveAll o :: acts →
       o = None ∨ o = Some ev → listening ev s1 = []).
Proof.
  destruct f as [id| |]; try done. cbn [clearing call_fn]. intros Hall Hlt.
  set (s0 := log (ECall (CUser id) d) s).
  change (arr < next_id s0) in Hlt.
  destruct (clearing_exec (prog id) arr ev s0 Hall Hlt) as (Ha & Hn & Hl).
  destruct (exec_actions_frame (prog id) s0) as [_ Ht].
  assert (Hfirst : ∀ o acts, prog id = ARemoveAll o :: acts →
            o = None ∨ o = Some ev →
            listening ev (exec_actions (prog id) s0).2 = []).
  { intros o acts E Ho. rewrite E in Hall |- *.
    cbn [exec_actions forallb andb] in *.
    assert (Hlt' : arr < next_id (removeAllListeners o s0)).
    { destruct (removeAll_array o arr s0 Hlt). lia. }
    destruct (clearing_exec acts arr ev _ Hall Hlt') as (_ & _ & Hl').
    by apply Hl', removeAll_cleared. }
  assert (Hc : called (trace s0) = called (trace s) ++ [CUser id]).
  { subst s0. cbn [log trace]. by rewrite called_snoc. }
  destruct (exec_actions (prog id) s0) as [[e|] s1]; cbn [snd] in *;
    cbv zeta.
  - cbn [log trace arrays next_id]. rewrite called_snoc, Ht, Hc.
    cbn. rewrite app_nil_r. split_and!; [done..|].
    intros id' o acts [= <-]. apply Hfirst.
  - rewrite Ht, Hc. split_and!; [done..|].
    intros id' o acts [= <-]. apply Hfirst.
Qed.

Lemma emit_loop_clearing fuel arr i ev d fs s :
  arrays s !! arr = Some fs → arr < next_id s →
  forallb (clearing prog) fs = true →
  length fs - i < fuel →
  ∃ s', emit_loop prog fuel arr i ev d s = Some s'
        ∧ called (trace s') = called (trace s) ++ drop i fs
        ∧ (listening ev s = [] → listening ev s' = [])
        ∧ (∀ id o acts, CUser id ∈ drop i fs →
             prog id = ARemoveAll o :: acts → o = None ∨ o = Some ev →
             listening ev s' = []).
Proof.
  intros Harr Hlt Hall. revert i s Harr Hlt.
  induction fuel as [|fuel IH]; intros i s Harr Hlt Hfuel; [lia|].
  cbn [emit_loop]. rewrite Harr. cbn.
  destruct (fs !! i) as [f|] eqn:Ef.
  - assert (Hf : clearing prog f = true).
    { rewrite forallb_forall in Hall. apply Hall, list_elem_of_In.
      by eapply list_elem_of_lookup_2. }
    pose proof (lookup_lt_Some _ _ _ Ef) as Hi.
    destruct (clearing_call f arr ev d s Hf Hlt) as (Ha & Hn & Hc & Hl & Hfirst).
    set (s1 := match call_fn prog f d s with
               | (None, s1) => s1
               | (Some error, s1) => log (EError ev error) s1
               end) in *.
    destruct (IH (S i) s1) as (s' & E & Hc' & Hl' & Hlater);
      [by rewrite Ha|lia|lia|].
    exists s'. rewrite (drop_S _ _ _ Ef). split; [done|]. split.
    { rewrite Hc', Hc, <- app_assoc. done. }
    split; [by intros ?; apply Hl', Hl|].
    intros id o acts [Heq|Hin]%elem_of_cons E' Ho.
    + apply Hl'. by eapply Hfirst.
    + by eapply Hlater.
  - apply lookup_ge_None in Ef. rewrite drop_ge by done.
    exists s. rewrite app_nil_r. split_and!; [done..|].
    by intros ? ? ? ?%elem_of_nil.
Qed.

(** X13. Clearing the listeners during a dispatch does not stop the
    dispatch.  When the listeners of an event only call
    [removeAllListeners] (or throw), [#emit] still calls every one of
    them, in order, because the loop holds the array that was registered
    when it started; if one of them begins by clearing this event or all
    events, the event has no listener once [#emit] returns. *)
Theorem listeners_run_after_being_cleared fuel ev d arr fs s :
  steps prog now initial s →
  listeners s !! ev = Some arr → arrays s !! arr = Some fs →
  forallb (clearing prog) fs = true →
  length fs < fuel →
  ∃ s', emit prog fuel ev d s = Ret tt s'
        ∧ called (trace s') = called (trace s) ++ fs
        ∧ (∀ id o acts, CUser id ∈ fs →
             prog id = ARemoveAll o :: acts → o = None ∨ o = Some ev →
             listening ev s' = [] ∧ hasListeners ev s' = false).
Proof.
  intros (_ & _ & Hlt)%reachable_bus_wf Hl Harr Hall Hfuel.
  unfold emit. cbn [log listeners]. rewrite Hl.
  destruct (emit_loop_clearing fuel arr 0 ev d fs (log (EEmit ev d) s))
    as (s' & E & Hc & _ & Hclear); [done|by apply Hlt|done|lia|].
  rewrite E. exists s'. split; [done|]. split.
  { rewrite Hc. cbn [log trace]. rewrite called_snoc. cbn.
    by rewrite app_nil_r. }
  intros id o acts Hin E' Ho.
  assert (H : listening ev s' = []) by (by eapply Hclear).
  split; [done|]. unfold hasListeners, getListenerCount.
  unfold listening in H. destruct (listeners_of ev s') as [l|]; cbn in H.
  - subst l. by apply bool_decide_eq_false_2; cbn; lia.
  - by apply bool_decide_eq_false_2; lia.
Qed.

Lemma inert_call_bus f ev d s :
  inert prog f = true →
  let s1 := match call_fn prog f d s with
            | (None, s1) => s1
            | (Some error, s1) => log (EError ev error) s1
            end in
  listeners s1 = listeners s ∧ arrays s1 = arrays s
  ∧ called (trace s1) = called (trace s) ++ [f].
Proof.
  destruct f as [id| |]; try done. cbn [inert call_fn].
  destruct (prog id) as [|[] acts]; try done; intros _;
    cbn [exec_actions log trace listeners arrays];
    rewrite ?called_snoc; cbn; by rewrite ?app_nil_r.
Qed.

Lemma emit_loop_self_subscribing fuel arr i k e d fs id s :
  prog id = [AOn e (CUser id)] →
  forallb (inert prog) fs = true →
  listeners s !! e = Some arr →
  arrays s !! arr = Some (fs ++ replicate (S k) (CUser id)) →
  i ≤ length fs + k →
  emit_loop prog fuel arr i e d s = None.
Proof.
  intros Hid Hin. revert i k s.
  induction fuel as [|fuel IH]; intros i k s Hl Harr Hi; [done|].
  cbn [emit_loop]. rewrite Harr.
  change (Some ?l ≫= (.!! i)) with (l !! i).
  destruct (decide (i < length fs)) as [Hlt|Hge].
  - destruct (lookup_lt_is_Some_2 fs i Hlt) as [g Eg].
    rewrite (lookup_app_l_Some _ _ _ _ Eg).
    assert (Hg : inert prog g = true).
    { rewrite forallb_forall in Hin. apply Hin, list_elem_of_In.
      by eapply list_elem_of_lookup_2. }
    destruct (inert_call_bus g e d s Hg) as (Hl1 & Ha1 & _).
    apply (IH (S i) k); [by rewrite Hl1|by rewrite Ha1|lia].
  - rewrite lookup_app_r by lia.
    rewrite lookup_replicate_2 by lia.
    cbn [call_fn]. rewrite Hid. cbn [exec_actions snd].
    set (s0 := log (ECall (CUser id) d) s).
    destruct (on_registered e (CUser id) arr _ s0 Hl Harr) as [Hl1 Ha1].
    apply (IH (S i) (S k)); [done| |lia].
    rewrite Ha1, <- app_assoc. do 2 f_equal.
    change (replicate (S k) (CUser id) ++ [CUser id]
            = replicate (S (S k)) (CUser id)).
    by rewrite <- replicate_S_end.
Qed.

(** X14. A listener that subscribes itself again to the event being
    dispatched keeps the dispatch from ever finishing: the loop reads the
    length of the live array, which grows by one with every call, so
    [#emit] does not return, whatever the number of steps allowed. *)
Theorem self_subscribing_listener_never_returns fuel e d arr fs id s :
  prog id = [AOn e (CUser id)] →
  forallb (inert prog) fs = true →
  listeners s !! e = Some arr →
  arrays s !! arr = Some (fs ++ [CUser id]) →
  emit prog fuel e d s = OutOfFuel.
Proof.
  intros Hid Hin Hl Harr. unfold emit. cbn [log listeners]. rewrite Hl.
  rewrite (emit_loop_self_subscribing fuel arr 0 0 e d fs id);
    [done..|lia].
Qed.

Lemma inert_not_once w e cb l :
  forallb (inert prog) l = true → COnce w e cb ∉ l.
Proof.
  intros Hin Hel. rewrite forallb_forall in Hin.
  by specialize (Hin _ (proj1 (list_elem_of_In _ _) Hel)).
Qed.

Lemma called_inert ev d l :
  forallb (inert prog) l = true →
  called (concat (inert_effects prog ev d <$> l)) = l.
Proof.
  induction l as [|g l IHl]; [done|]. cbn [forallb].
  intros [Hg Hin]%andb_prop. cbn [fmap list_fmap concat].
  unfold called in *. rewrite omap_app, IHl by done.
  destruct g as [j| |]; try done.
  unfold inert_effects. by destruct (prog j) as [|[] ?].
Qed.

Lemma emit_loop_once fuel arr i w e d id l s :
  prog id = [] →
  forallb (inert prog) l = true →
  listeners s !! e = Some arr →
  arrays s !! arr = Some (l ++ [COnce w e (CUser id)]) →
  i ≤ length l → length l + 1 - i < fuel →
  ∃ s', emit_loop prog fuel arr i e d s = Some s'
        ∧ called (trace s')
          = called (trace s) ++ drop i l ++ [COnce w e (CUser id); CUser id]
        ∧ listeners s' = listeners s
        ∧ arrays s' = <[arr := l]> (arrays s).
Proof.
  intros Hid Hin. revert i s.
  induction fuel as [|fuel IH]; intros i s Hl Harr Hi Hfuel; [lia|].
  cbn [emit_loop]. rewrite Harr.
  change (Some ?l ≫= (.!! i)) with (l !! i).
  destruct (decide (i < length l)) as [Hlt|Hge].
  - destruct (lookup_lt_is_Some_2 l i Hlt) as [g Eg].
    rewrite (lookup_app_l_Some _ _ _ _ Eg).
    assert (Hg : inert prog g = true).
    { rewrite forallb_forall in Hin. apply Hin, list_elem_of_In.
      by eapply list_elem_of_lookup_2. }
    destruct (inert_call_bus g e d s Hg) as (Hl1 & Ha1 & Hc1).
    set (s1 := match call_fn prog g d s with
               | (None, s1) => s1
               | (Some error, s1) => log (EError e error) s1
               end) in *.
    destruct (IH (S i) s1) as (s' & E & Hc & Hl' & Ha');
      [by rewrite Hl1|by rewrite Ha1|lia|lia|].
    exists s'. split; [done|]. rewrite (drop_S _ _ _ Eg).
    rewrite Hc, Hc1, Hl', Ha', Hl1, Ha1, <- !app_assoc. done.
  - assert (i = length l) as -> by lia.
    rewrite lookup_app_r by lia. rewrite Nat.sub_diag.
    cbn [lookup list_lookup call_fn]. rewrite Hid. cbn [exec_actions].
    set (s0 := log (ECall (CUser id) d)
                 (log (ECall (COnce w e (CUser id)) d) s)).
    assert (Hoff : off e (COnce w e (CUser id)) s0
                   = set_arrays (<[arr := l]> (arrays s)) s0).
    { unfold off. change (listeners s0) with (listeners s). rewrite Hl.
      f_equal. change (arrays s0) with (arrays s).
      apply map_eq. intros a. destruct (decide (a = arr)) as [->|Hne].
      - rewrite lookup_alter_eq, lookup_insert_eq, Harr. cbn. f_equal.
        apply remove_first_app_absent. by apply inert_not_once.
      - by rewrite lookup_alter_ne, lookup_insert_ne. }
    rewrite Hoff. destruct fuel as [|fuel]; [lia|].
    cbn [emit_loop set_arrays arrays]. rewrite lookup_insert_eq.
    change (Some l ≫= (.!! S (length l))) with (l !! S (length l)).
    rewrite (proj2 (lookup_ge_None l (S (length l)))) by lia.
    eexists. split; [done|]. cbn [trace listeners arrays set_arrays].
    subst s0. cbn [log trace]. rewrite !called_snoc, drop_all. cbn.
    by rewrite <- app_assoc.
Qed.

(** X15. A listener registered with [once] whose callback returns
    normally is called on the next dispatch of its event, after the
    listeners registered before it, and is gone afterwards: the listeners
    of the event are those there were before [once], and a second
    dispatch calls only them. *)
Theorem once_fires_once fuel e d d' id l s :
  prog id = [] →
  listeners_of e s = Some l →
  forallb (inert prog) l = true →
  length l + 1 < fuel →
  let wrapper := COnce (next_id s) e (CUser id) in
  ∃ s1 s2,
    emit prog fuel e d (once e (CUser id) s).2 = Ret tt s1
    ∧ called (trace s1) = called (trace s) ++ l ++ [wrapper; CUser id]
    ∧ listeners_of e s1 = Some l
    ∧ emit prog fuel e d' s1 = Ret tt s2
    ∧ called (trace s2) = called (trace s1) ++ l.
Proof.
  intros Hid (arr & Hl & Harr)%listeners_of_Some Hin Hfuel wrapper.
  change (once e (CUser id) s).2
    with (on e wrapper (set_next_id (S (next_id s)) s)).2.
  set (s0 := (on e wrapper (set_next_id (S (next_id s)) s)).2).
  destruct (on_registered e wrapper arr l (set_next_id (S (next_id s)) s)
              Hl Harr) as [Hl0 Ha0]. fold s0 in Hl0, Ha0.
  assert (Ht0 : trace s0 = trace s).
  { destruct (on_frame e wrapper (set_next_id (S (next_id s)) s)) as [_ Ht].
    exact Ht. }
  unfold emit at 1. cbn [log listeners]. rewrite Hl0.
  destruct (emit_loop_once fuel arr 0 (next_id s) e d id l
              (log (EEmit e d) s0) Hid Hin Hl0 Ha0 ltac:(lia) ltac:(lia))
    as (s1 & E & Hc & Hl1 & Ha1).
  rewrite E. exists s1. cbn [log listeners arrays trace] in Hc, Hl1, Ha1.
  rewrite called_snoc, Ht0 in Hc. cbn in Hc. rewrite app_nil_r in Hc.
  assert (Hl1' : listeners s1 !! e = Some arr) by (by rewrite Hl1).
  assert (Ha1' : arrays s1 !! arr = Some l)
    by (by rewrite Ha1, lookup_insert_eq).
  unfold emit. cbn [log listeners]. rewrite Hl1'.
  pose proof (emit_loop_inert prog fuel arr 0 e d' l [EEmit e d'] s1 Ha1' Hin
                ltac:(lia)) as E2.
  change (logs [EEmit e d'] s1) with (log (EEmit e d') s1) in E2.
  rewrite E2. eexists. split_and!; [done|done| |done|].
  - unfold listeners_of. rewrite Hl1'. exact Ha1'.
  - cbn [logs trace]. unfold called. rewrite !omap_app. cbn.
    f_equal. rewrite drop_0. by apply called_inert.
Qed.

(** ** Keys that start with an underscore *)



End Further.

(* ================================================================= *)
(** * The further properties on concrete runs *)

Ltac by_running := apply (bool_decide_unpack _); vm_compute; exact I.


(** The first read of [ctx.a.b]: a new node with namespace [a.b]. *)
Lemma traversal_is_silent_witness :
  let s := state_after [ OpAlloc (OPlain [(KStr "c", VNum 1)]);
                         OpAlloc (OPlain [(KStr "b", VObj (Raw 0))]);
                         OpCreateFields [("a", VObj (Raw 1))] ] in
  ∃ s', obj_get demo_prog demo_now 5 (Prox 0 "a" (Raw 1)) (KStr "b") s
        = Ret (VObj (Prox 1 "a.b" (Raw 0))) s'
        ∧ trace s' = trace s ∧ ticks s' = ticks s ∧ heap s' = heap s
        ∧ proxy_cache s' !! ident (Raw 0) = Some (Prox 1 "a.b" (Raw 0)).
Proof.
  cbn zeta.
  set (s := state_after [ OpAlloc (OPlain [(KStr "c", VNum 1)]);
                          OpAlloc (OPlain [(KStr "b", VObj (Raw 0))]);
                          OpCreateFields [("a", VObj (Raw 1))] ]).
  destruct (traversal_is_silent demo_prog demo_now 5 0 "a" 1
              (OPlain [(KStr "b", VObj (Raw 0))]) "b" (Raw 0) s)
    as (node & s' & E & Ht & Hk & Hh & _ & _ & Hc & _ & Hnew);
    [vm_compute; reflexivity|reflexivity|reflexivity|].
  assert (Hn : node = Prox 1 "a.b" (Raw 0)).
  { rewrite Hnew by (vm_compute; reflexivity). vm_compute. reflexivity. }
  rewrite Hn in E, Hc. exists s'.
  repeat split; assumption.
Defined.



(** [ctx.state[Symbol()] = 1]: stored, then the [TypeError]. *)
Lemma symbol_write_throws_witness :
  let s := state_after counter_setup in
  obj_set demo_prog demo_now 5 state_node (KSym 1) (VNum 1) s
  = Exc (TypeError "Cannot convert a Symbol value to a string")
      (set_heap
         (<[0 := OPlain [(KStr "count", VNum 0); (KSym 1, VNum 1)]]> (heap s))
         (next_addr s) s).
Proof.
  cbn zeta.
  destruct (symbol_write_throws demo_prog demo_now 5 0 "state" 0
              (OPlain [(KStr "count", VNum 0)]) 1 (VNum 1)
              (state_after counter_setup))
    as (o' & Hset & E); [vm_compute; reflexivity|].
  vm_compute in Hset. injection Hset as <-. exact E.
Defined.


(** [createReactiveFields({ a: 1, b: 'x' })] on a host that has
    [state]. *)
Lemma declaration_installs_all_witness :
  let s := state_after counter_setup in
  ∃ s', createReactiveFields [("a", VNum 1); ("b", VStr "x")] s = Ret tt s'
        ∧ trace s' = trace s
        ∧ field_get "a" s' = VNum 1
        ∧ field_get "b" s' = VStr "x"
        ∧ fields s' !! "state" = Some (VObj state_node).
Proof.
  cbn zeta.
  destruct (declaration_installs_all [("a", VNum 1); ("b", VStr "x")]
              (state_after counter_setup))
    as (s' & E & Ht & _ & _ & _ & Hother & Hin).
  - by_running.
  - intros n Hn. change (n ∈ ["a"; "b"]) in Hn.
    apply elem_of_cons in Hn as [->|Hn]; [by_running|].
    apply list_elem_of_singleton in Hn as ->. by_running.
  - exists s'. split; [exact E|]. split; [exact Ht|].
    destruct (Hin "a" (VNum 1)) as [_ Ha]; [by_running|].
    destruct (Hin "b" (VStr "x")) as [_ Hb]; [by_running|].
    split; [exact (Ha eq_refl)|]. split; [exact (Hb eq_refl)|].
    rewrite Hother by by_running. vm_compute. reflexivity.
Defined.

(** Subscribing listener 4 to [state:change] beside listener 0, and
    unsubscribing it with the function [on] returned. *)
Lemma on_then_unsubscribe_witness :
  let s := state_after (counter_setup ++ [OpOn "state:change" (CUser 0)]) in
  let r := on "state:change" (CUser 4) s in
  listeners_of "state:change" s = Some [CUser 0]
  ∧ listeners_of "state:change" r.2 = Some [CUser 0; CUser 4]
  ∧ getListenerCount "state:change" r.2 = 2
  ∧ listeners_of "state:change" (unsubscribe r.1 r.2) = Some [CUser 0].
Proof.
  cbn zeta.
  set (s := state_after (counter_setup ++ [OpOn "state:change" (CUser 0)])).
  assert (Hl : listeners_of "state:change" s = Some [CUser 0])
    by (vm_compute; reflexivity).
  destruct (on_then_unsubscribe "state:change" (CUser 4) [CUser 0] s Hl)
    as (H1 & H2 & H3 & _).
  split; [exact Hl|]. split; [exact H1|]. split; [exact H2|].
  apply H3. by_running.
Defined.

(** [off] with a callback that was never registered. *)
Lemma off_unregistered_is_noop_witness :
  let s := state_after (counter_setup ++ [OpOn "state:change" (CUser 0)]) in
  listeners_of "state:change" s = Some [CUser 0]
  ∧ off "state:change" (CUser 4) s = s
  ∧ off "other" (CUser 0) s = s.
Proof.
  cbn zeta.
  set (s := state_after (counter_setup ++ [OpOn "state:change" (CUser 0)])).
  assert (Hl : listeners_of "state:change" s = Some [CUser 0])
    by (vm_compute; reflexivity).
  assert (Hn : listeners_of "other" s = None) by (vm_compute; reflexivity).
  split; [exact Hl|]. split.
  - apply off_unregistered_is_noop. intros l H. rewrite Hl in H.
    injection H as <-. by_running.
  - apply off_unregistered_is_noop. intros l H. rewrite Hn in H.
    discriminate H.
Defined.

(** [ctx.on('ping', f)()] on a new host. *)
Lemma emptied_event_stays_registered_witness :
  let r := on "ping" (CUser 0) initial in
  "ping" ∈ getRegisteredEvents (unsubscribe r.1 r.2)
  ∧ hasListeners "ping" (unsubscribe r.1 r.2) = false.
Proof.
  cbn zeta.
  destruct (emptied_event_stays_registered "ping" (CUser 0) initial)
    as (_ & H1 & _ & _ & H2); [reflexivity|].
  split; [exact H1|exact H2].
Defined.

(** Subscriptions to [a:change] leave those to [a.b:c:change] alone. *)
Lemma subscriptions_are_per_event_witness :
  let s := state_after nested_setup in
  listeners_of "a.b:c:change" s = Some [CUser 0]
  ∧ listeners_of "a.b:c:change" (on "a:change" (CUser 1) s).2
    = Some [CUser 0]
  ∧ listeners_of "a.b:c:change" (off "a:change" (CUser 4) s)
    = Some [CUser 0]
  ∧ listeners_of "a.b:c:change" (once "a:change" (CUser 1) s).2
    = Some [CUser 0]
  ∧ listeners_of "a.b:c:change" (removeAllListeners (Some "a:change") s)
    = Some [CUser 0].
Proof.
  cbn zeta.
  assert (Hreach : steps demo_prog demo_now initial (state_after nested_setup)).
  { apply (run_ops_steps demo_prog demo_now 5 nested_setup).
    vm_compute. reflexivity. }
  assert (Hl : listeners_of "a.b:c:change" (state_after nested_setup)
               = Some [CUser 0]) by (vm_compute; reflexivity).
  destruct (subscriptions_are_per_event demo_prog demo_now
              "a:change" "a.b:c:change" (CUser 1)
              (state_after nested_setup) Hreach ltac:(discriminate))
    as (H1 & _ & H3 & H4).
  destruct (subscriptions_are_per_event demo_prog demo_now
              "a:change" "a.b:c:change" (CUser 4)
              (state_after nested_setup) Hreach ltac:(discriminate))
    as (_ & H2 & _).
  rewrite H1, H2, H3, (H4 ltac:(discriminate)).
  repeat split; exact Hl.
Defined.

(** [removeAllListeners('a:change')] and [removeAllListeners()]. *)
Lemma removeAllListeners_clears_witness :
  let s := state_after nested_setup in
  hasListeners "a:change" s = true
  ∧ hasListeners "a:change" (removeAllListeners (Some "a:change") s) = false
  ∧ "a:change" ∈ getRegisteredEvents (removeAllListeners (Some "a:change") s)
  ∧ getRegisteredEvents (removeAllListeners None s) = ∅.
Proof.
  cbn zeta.
  destruct (removeAllListeners_clears "a:change" (state_after nested_setup))
    as (H1 & _ & H2 & H3 & _); [discriminate|].
  split; [vm_compute; reflexivity|]. split; [exact H2|].
  split; [exact H1|exact H3].
Defined.

(** Listener 7 clears [state:change] while it is dispatched; listener 0,
    registered after it, is still called. *)
Lemma listeners_run_after_being_cleared_witness :
  let s := state_after2 [ OpOn "state:change" (CUser 7);
                          OpOn "state:change" (CUser 0) ] in
  let d := PChange "count" (VNum 0) (VNum 1) 0 in
  listeners_of "state:change" s = Some [CUser 7; CUser 0]
  ∧ ∃ s', emit demo_prog2 5 "state:change" d s = Ret tt s'
          ∧ called (trace s') = [CUser 7; CUser 0]
          ∧ hasListeners "state:change" s' = false.
Proof.
  cbn zeta.
  set (s := state_after2 [ OpOn "state:change" (CUser 7);
                           OpOn "state:change" (CUser 0) ]).
  assert (Hreach : steps demo_prog2 demo_now initial s).
  { apply (run_ops_steps demo_prog2 demo_now 5
             [ OpOn "state:change" (CUser 7);
               OpOn "state:change" (CUser 0) ]).
    vm_compute. reflexivity. }
  split; [vm_compute; reflexivity|].
  destruct (listeners_run_after_being_cleared demo_prog2 demo_now 5
              "state:change" (PChange "count" (VNum 0) (VNum 1) 0)
              0 [CUser 7; CUser 0] s Hreach)
    as (s' & E & Hc & Hclear);
    [vm_compute; reflexivity|vm_compute; reflexivity|reflexivity
    |vm_compute; lia|].
  exists s'. split; [exact E|]. split.
  - rewrite Hc. vm_compute. reflexivity.
  - destruct (Hclear 7 (Some "state:change") []) as [_ H];
      [by_running|reflexivity|right; reflexivity|exact H].
Defined.

(** Listener 6 subscribes itself to the event it handles. *)
Lemma self_subscribing_listener_never_returns_witness :
  let s := (on "state:change" (CUser 6) initial).2 in
  listeners_of "state:change" s = Some [CUser 6]
  ∧ emit demo_prog2 1000 "state:change"
      (PChange "count" (VNum 0) (VNum 1) 0) s
    = OutOfFuel.
Proof.
  cbn zeta. split; [vm_compute; reflexivity|].
  apply (self_subscribing_listener_never_returns demo_prog2 1000
           "state:change" _ 0 [] 6);
    [reflexivity|reflexivity|vm_compute; reflexivity|vm_compute; reflexivity].
Defined.

(** [once('state:change', f)] beside a listener that throws. *)
Lemma once_fires_once_witness :
  let s := state_after (counter_setup ++ [OpOn "state:change" (CUser 1)]) in
  let d := PChange "count" (VNum 0) (VNum 1) 0 in
  listeners_of "state:change" s = Some [CUser 1]
  ∧ ∃ s1 s2,
      emit demo_prog 5 "state:change" d (once "state:change" (CUser 0) s).2
      = Ret tt s1
      ∧ called (trace s1) = [CUser 1; COnce 3 "state:change" (CUser 0); CUser 0]
      ∧ listeners_of "state:change" s1 = Some [CUser 1]
      ∧ emit demo_prog 5 "state:change" d s1 = Ret tt s2
      ∧ called (trace s2)
        = [CUser 1; COnce 3 "state:change" (CUser 0); CUser 0; CUser 1].
Proof.
  cbn zeta.
  set (s := state_after (counter_setup ++ [OpOn "state:change" (CUser 1)])).
  assert (Hl : listeners_of "state:change" s = Some [CUser 1])
    by (vm_compute; reflexivity).
  split; [exact Hl|].
  destruct (once_fires_once demo_prog 5 "state:change"
              (PChange "count" (VNum 0) (VNum 1) 0)
              (PChange "count" (VNum 0) (VNum 1) 0) 0 [CUser 1] s)
    as (s1 & s2 & E1 & Hc1 & Hl1 & E2 & Hc2);
    [reflexivity|exact Hl|reflexivity|vm_compute; lia|].
  exists s1, s2. split; [exact E1|].
  assert (Hc : called (trace s1)
               = [CUser 1; COnce 3 "state:change" (CUser 0); CUser 0]).
  { rewrite Hc1. vm_compute. reflexivity. }
  split; [exact Hc|]. split; [exact Hl1|]. split; [exact E2|].
  rewrite Hc2, Hc. reflexivity.
Defined.

